(** * Salary Management System: the browser script and the salary ledger

    The first part embeds [static/js/script.js]: the withdrawal dialog
    ([openWithdrawalModal]), the client-side check of a withdrawal
    ([validateWithdrawal]) and the currency field helper
    ([formatCurrency]), together with the ECMAScript built-ins they call;
    then the password strength indicator ([checkPasswordStrength]), the
    functions and handlers that open and close the modal dialogs, and the
    debounced search ([debounceSearch]).
    JavaScript numbers are IEEE 754 binary64 values, taken here as Rocq's
    primitive floats; strings are byte strings (UTF-8). *)

From stdpp Require Import gmap list sorting.
From Stdlib Require Import ZArith List String Ascii Bool Lia Floats QArith Lqa.
From Stdlib Require Import Sorting.Sorted Sorting.Permutation.
Import ListNotations.

Local Open Scope string_scope.
Local Open Scope Z_scope.

(** ** ECMAScript numbers *)

Module Number.

Definition number := float.

Definition NaN : number := nan.
Definition Infinity : number := infinity.

(** [x > y], [x <= y] and [isNaN] of the language. *)
Definition gt (x y : number) : bool := (y <? x)%float.
Definition le (x y : number) : bool := (x <=? y)%float.
Definition lt (x y : number) : bool := (x <? y)%float.
Definition isNaN (x : number) : bool := negb (x =? x)%float.

(** The Number value for a positive rational [A / B] (ECMAScript's
    "the Number value for x"): pick the binade of the quotient, scale it to
    an integer significand of at most 53 bits (or to the subnormal grid
    [2^-1074]), round that to nearest, ties to even. *)

(** [2^g <= A/B]. *)
Definition ge_pow2 (A B g : Z) : bool :=
  if 0 <=? g then B * 2 ^ g <=? A else B <=? A * 2 ^ (- g).

(** [magnitude A B] is the [g] with [2^(g-1) <= A/B < 2^g]. *)
Definition magnitude (A B : Z) : Z :=
  let d := Z.log2 A - Z.log2 B in
  if ge_pow2 A B d then d + 1 else d.

Definition round_half_even (N D : Z) : Z :=
  let q := N / D in
  match (2 * (N mod D)) ?= D with
  | Lt => q
  | Gt => q + 1
  | Eq => if Z.even q then q else q + 1
  end.

(** The quotient [A / (B * 2^e)], as a fraction of integers. *)
Definition scaled_num (A e : Z) : Z := if 0 <=? e then A else A * 2 ^ (- e).
Definition scaled_den (B e : Z) : Z := if 0 <=? e then B * 2 ^ e else B.

(** [A / B] in units of [2^e], rounded to an integer. *)
Definition significand (A B e : Z) : Z :=
  if 0 <=? e then round_half_even A (B * 2 ^ e)
  else round_half_even (A * 2 ^ (- e)) B.

(** A significand of [2^53] is [2^52] one binade up; beyond the largest
    exponent the value is infinite, and a significand of 0 is zero. *)
Definition of_rational (A B : Z) : number :=
  let e := fexp prec emax (magnitude A B) in
  let m := significand A B e in
  if m =? 0 then zero
  else
    let '(m, e) := if m =? 2 ^ prec then (2 ^ (prec - 1), e + 1) else (m, e) in
    if emax - prec <? e then Infinity
    else SF2Prim (S754_finite false (Z.to_pos m) e).

(** The Number value for the decimal [m * 10^e], [0 <= m]. *)
Definition of_decimal (m e : Z) : number :=
  if m =? 0 then zero
  else if 0 <=? e then of_rational (m * 10 ^ e) 1
  else of_rational m (10 ^ (- e)).

End Number.

Import Number.

(** ** Strings to numbers: [parseFloat] *)

Module Parse.

(** White space and line terminators skipped in front of a numeric string.
    Strings are byte strings: the six ASCII code points are treated, the
    non-ASCII spaces of the language (U+00A0, U+FEFF, ...) are not. *)
Definition is_white_space (c : ascii) : bool :=
  let n := N_of_ascii c in
  ((9 <=? n) && (n <=? 13) || (n =? 32))%N.

Fixpoint trim_start (s : string) : string :=
  match s with
  | String c r => if is_white_space c then trim_start r else s
  | EmptyString => s
  end.

Definition is_digit (c : ascii) : bool :=
  let n := N_of_ascii c in ((48 <=? n) && (n <=? 57))%N.

Definition digit_value (c : ascii) : Z := Z.of_N (N_of_ascii c) - 48.

(** DecimalDigits: the longest run of digits at the head of [s], read on
    top of the value [acc] and the count [n]; returns the remaining text. *)
Fixpoint digits (s : string) (acc n : Z) : Z * Z * string :=
  match s with
  | String c r =>
      if is_digit c then digits r (10 * acc + digit_value c) (n + 1)
      else (acc, n, s)
  | EmptyString => (acc, n, s)
  end.

(** ExponentPart at the head of [s]: [e] or [E], an optional sign and at
    least one digit; its value and the text after it, 0 and [s] when it is
    not there. *)
Definition exponent_part (s : string) : Z * string :=
  match s with
  | String c r =>
      if (Ascii.eqb c "e" || Ascii.eqb c "E")%bool then
        let '(neg, r') :=
          match r with
          | String "+"%char r1 => (false, r1)
          | String "-"%char r1 => (true, r1)
          | _ => (false, r)
          end in
        let '(v, n, rest) := digits r' 0 0 in
        if n =? 0 then (0, s) else (if neg then - v else v, rest)
      else (0, s)
  | EmptyString => (0, s)
  end.

Fixpoint skip (n : nat) (s : string) : string :=
  match n, s with
  | S n', String _ r => skip n' r
  | _, _ => s
  end.

(** The longest prefix of [s] that is a StrUnsignedDecimalLiteral: its
    number and the text after it; [None] when no prefix is one. *)
Definition literal (s : string) : option (number * string) :=
  if String.prefix "Infinity" s then Some (Infinity, skip 8 s)
  else
    let '(ip, ni, r1) := digits s 0 0 in
    match r1 with
    | String "."%char r2 =>
        let '(m, nf, r3) := digits r2 ip 0 in
        if ((ni =? 0) && (nf =? 0))%bool then None
        else let '(x, r4) := exponent_part r3 in Some (of_decimal m (x - nf), r4)
    | _ =>
        if ni =? 0 then None
        else let '(x, r4) := exponent_part r1 in Some (of_decimal ip x, r4)
    end.

Definition unsigned_decimal (s : string) : option number :=
  option_map fst (literal s).

Definition parseFloat (s : string) : number :=
  let t := trim_start s in
  let '(neg, u) :=
    match t with
    | String "+"%char r => (false, r)
    | String "-"%char r => (true, r)
    | _ => (false, t)
    end in
  match unsigned_decimal u with
  | Some x => if neg then (- x)%float else x
  | None => NaN
  end.

(** *** [ToNumber] of a string, behind the global [isNaN] *)

Fixpoint trim_end (s : string) : string :=
  match s with
  | EmptyString => EmptyString
  | String c r =>
      match trim_end r with
      | EmptyString => if is_white_space c then EmptyString else String c EmptyString
      | r' => String c r'
      end
  end.

Definition trim (s : string) : string := trim_end (trim_start s).

(** The base announced by the second character of [0b...], [0o...],
    [0x...]. *)
Definition radix_of (c : ascii) : option Z :=
  if (Ascii.eqb c "b" || Ascii.eqb c "B")%bool then Some 2
  else if (Ascii.eqb c "o" || Ascii.eqb c "O")%bool then Some 8
  else if (Ascii.eqb c "x" || Ascii.eqb c "X")%bool then Some 16
  else None.

Definition radix_digit (c : ascii) : option Z :=
  let n := Z.of_N (N_of_ascii c) in
  if (48 <=? n) && (n <=? 57) then Some (n - 48)
  else if (97 <=? n) && (n <=? 102) then Some (n - 87)
  else if (65 <=? n) && (n <=? 70) then Some (n - 55)
  else None.

(** The value of a string made of digits of the base only. *)
Fixpoint radix_digits (base : Z) (s : string) (acc : Z) : option Z :=
  match s with
  | EmptyString => Some acc
  | String c r =>
      match radix_digit c with
      | Some d => if d <? base then radix_digits base r (acc * base + d) else None
      | None => None
      end
  end.

(** A whole string as a StrDecimalLiteral. *)
Definition decimal_number (t : string) : number :=
  let '(neg, u) :=
    match t with
    | String c r =>
        if Ascii.eqb c "+" then (false, r)
        else if Ascii.eqb c "-" then (true, r)
        else (false, t)
    | EmptyString => (false, t)
    end in
  match literal u with
  | Some (x, EmptyString) => if neg then (- x)%float else x
  | _ => NaN
  end.

(** A whole string as a NonDecimalIntegerLiteral: [None] when it does not
    start as one, NaN when it starts as one and does not end as one. *)
Definition non_decimal_number (t : string) : option number :=
  match t with
  | String c0 (String c r) =>
      if Ascii.eqb c0 "0" then
        match radix_of c with
        | Some b =>
            match r, radix_digits b r 0 with
            | String _ _, Some v => Some (of_decimal v 0)
            | _, _ => Some NaN
            end
        | None => None
        end
      else None
  | _ => None
  end.

(** StringToNumber: white space around the text is dropped; the empty
    text is 0; a text that is no numeric literal is NaN. *)
Definition ToNumber (s : string) : number :=
  let t := trim s in
  if String.eqb t "" then zero
  else
    match non_decimal_number t with
    | Some x => x
    | None => decimal_number t
    end.

End Parse.

Import Parse.

(** ** Numbers to strings *)

Module Print.

Definition digit_char (d : Z) : ascii := ascii_of_N (Z.to_N (48 + d)).

(** The last [w] decimal digits of [n], in front of [rest]. *)
Fixpoint fixed (w : nat) (n : Z) (rest : string) : string :=
  match w with
  | O => rest
  | S w' => fixed w' (n / 10) (String (digit_char (n mod 10)) rest)
  end.

(** The number of decimal digits of [n] (1 for 0). *)
Fixpoint count_digits (fuel : nat) (n : Z) : nat :=
  match fuel with
  | O => 1
  | S f => if n <? 10 then 1 else S (count_digits f (n / 10))
  end.

Definition ndigits (n : Z) : nat := count_digits (Z.to_nat (Z.log2 n)) n.

(** The decimal digits of [0 <= n], without leading zeros. *)
Definition decimal (n : Z) : string := fixed (ndigits n) n "".

Fixpoint zeros (n : nat) : string :=
  match n with
  | O => ""
  | S n' => String "0"%char (zeros n')
  end.

(** [s] without its trailing decimal zeros, and how many there were. *)
Fixpoint strip_zeros (fuel : nat) (s p : Z) : Z * Z :=
  match fuel with
  | O => (s, p)
  | S f => if (0 <? s) && (s mod 10 =? 0) then strip_zeros f (s / 10) (p + 1) else (s, p)
  end.

(** Number::toString, steps 6 to 10: the text of the decimal [s * 10^p],
    [0 < s], whose digit string has [k] digits and whose decimal point sits
    after the [n]-th of them. *)
Definition render (s p : Z) : string :=
  let '(s, p) := strip_zeros (ndigits s) s p in
  let ds := decimal s in
  let k := String.length ds in
  let n := Z.of_nat k + p in
  if (Z.of_nat k <=? n) && (n <=? 21) then ds ++ zeros (Z.to_nat p)
  else if (0 <? n) && (n <=? 21) then
    substring 0 (Z.to_nat n) ds ++ "." ++ substring (Z.to_nat n) (k - Z.to_nat n) ds
  else if (-6 <? n) && (n <=? 0) then "0." ++ zeros (Z.to_nat (- n)) ++ ds
  else
    let e := n - 1 in
    let es := (if e <? 0 then "-" else "+") ++ decimal (Z.abs e) in
    if (k =? 1)%nat then ds ++ "e" ++ es
    else substring 0 1 ds ++ "." ++ substring 1 (k - 1) ds ++ "e" ++ es.

(** Whether the numeric string [t] denotes the number [y]: the test
    "the Number value for [s * 10^(n-k)] is [y]" of Number::toString. *)
Definition reads_as (t : string) (y : number) : bool :=
  match unsigned_decimal t with
  | Some z => Leibniz.eqb z y
  | None => false
  end.

(** The least [n' >= n] with [A < B * 10^(n' - n)]. *)
Fixpoint find_exponent (fuel : nat) (A B n : Z) : Z :=
  match fuel with
  | O => n
  | S f => if A <? B then n else find_exponent f A (B * 10) (n + 1)
  end.

(** The [n] with [10^(n-1) <= A/B < 10^n], for [A/B] in the range of the
    positive binary64 values. *)
Definition decimal_exponent (A B : Z) : Z :=
  find_exponent 640 (A * 10 ^ 330) B (-330).

(** The two [k]-digit decimals around [A/B] (the digits [s] and [s + 1]
    at the scale [10^(n-k)]), the closer one first, the even one first
    when they are as close. *)
Definition candidates (A B n k : Z) : list (Z * Z) :=
  let p := n - k in
  let '(N, D) := if 0 <=? p then (A, B * 10 ^ p) else (A * 10 ^ (- p), B) in
  let lo := N / D in
  match (2 * (N mod D)) ?= D with
  | Lt => [(lo, p); (lo + 1, p)]
  | Gt => [(lo + 1, p); (lo, p)]
  | Eq => if Z.even lo then [(lo, p); (lo + 1, p)] else [(lo + 1, p); (lo, p)]
  end.

Definition first_reading (y : number) (c : list (Z * Z)) : option string :=
  match filter (fun t => reads_as t y) (map (fun '(s, p) => render s p) c) with
  | t :: _ => Some t
  | [] => None
  end.

(** The shortest decimal that reads as [y = A/B]: the least number of
    digits [k] first, searched up to 17 digits. *)
Fixpoint shortest (fuel : nat) (y : number) (A B n k : Z) : option string :=
  match fuel with
  | O => None
  | S f =>
      match first_reading y (candidates A B n k) with
      | Some t => Some t
      | None => shortest f y A B n (k + 1)
      end
  end.

(** The exact decimal expansion of [m * 2^e], in positional notation. *)
Definition exact (m e : Z) : string :=
  if 0 <=? e then decimal (m * 2 ^ e)
  else
    let N := m * 5 ^ (- e) in
    let w := Z.to_nat (- e) in
    decimal (N / 10 ^ (- e)) ++ "." ++ fixed w N "".

(** Number::toString of a positive finite number [y = m * 2^e].  Every
    binary64 value has a decimal of at most 17 digits that reads as it; the
    exact expansion stands behind the search and keeps the function total
    without that fact. *)
Definition positive_to_string (y : number) (m e : Z) : string :=
  let '(A, B) := if 0 <=? e then (m * 2 ^ e, 1) else (m, 2 ^ (- e)) in
  match shortest 17 y A B (decimal_exponent A B) 1 with
  | Some t => t
  | None => exact m e
  end.

(** Number::toString with radix 10: what [String(x)], a template literal
    and a DOM attribute setter make of a number. *)
Definition numberToString (x : number) : string :=
  match Prim2SF x with
  | S754_nan => "NaN"
  | S754_zero _ => "0"
  | S754_infinity s => (if s then "-" else "") ++ "Infinity"
  | S754_finite s m e =>
      (if s then "-" else "") ++ positive_to_string (abs x) (Zpos m) e
  end.

End Print.

Import Print.

(** ** Locale formatting: [toLocaleString('en-IN', ...)] *)

Module Intl.

(** [N / D] rounded to the nearest integer, halves away from zero (the
    default rounding mode, "halfExpand"), for [0 <= N], [0 < D]. *)
Definition round_half_expand (N D : Z) : Z :=
  if 2 * (N mod D) <? D then N / D else N / D + 1.

(** [m * 2^e * 10^f], rounded to an integer. *)
Definition scaled (m e : Z) (f : nat) : Z :=
  if 0 <=? e then m * 2 ^ e * 10 ^ Z.of_nat f
  else round_half_expand (m * 10 ^ Z.of_nat f) (2 ^ (- e)).

(** Digit grouping of the en-IN locale: the last three digits, then groups
    of two. Works on the digits in reverse. *)
Fixpoint pairs (l : list ascii) : list ascii :=
  match l with
  | a :: b :: ((_ :: _) as r) => a :: b :: ","%char :: pairs r
  | _ => l
  end.

Definition group (ds : string) : string :=
  match rev (list_ascii_of_string ds) with
  | a :: b :: c :: ((_ :: _) as r) =>
      string_of_list_ascii (rev (a :: b :: c :: ","%char :: pairs r))
  | _ => ds
  end.

(** The characters of a grouped integer. *)
Definition digit_or_comma (c : ascii) : bool := is_digit c || Ascii.eqb c ",".

(** The characters of an amount without its commas, and those that are
    not commas. *)
Definition digit_or_point (c : ascii) : bool := is_digit c || Ascii.eqb c ".".
Definition no_comma (c : ascii) : bool := negb (Ascii.eqb c ",").

(** The fraction of a value rounded to [f] digits, without trailing zeros
    (minimumFractionDigits is 0); empty when the fraction is zero. *)
Definition fraction (f : nat) (fr : Z) : string :=
  if fr =? 0 then ""
  else
    let '(d, z) := strip_zeros f fr 0 in
    "." ++ fixed (f - Z.to_nat z) d "".

(** [x.toLocaleString('en-IN', { maximumFractionDigits: f })]. The sign is
    that of [x], also in front of a zero. The value that is rounded is
    the exact value of [x], as ECMA-402 words it; an engine that rounds
    the shortest decimal reading as [x] instead prints other digits for
    whole numbers from about [2^54] on, and at ties of that decimal (1.0005
    to three digits). *)
Definition toLocaleString_en_IN (f : nat) (x : number) : string :=
  match Prim2SF x with
  | S754_nan => "NaN"
  | S754_infinity s => (if s then "-" else "") ++ "∞"
  | S754_zero s => (if s then "-" else "") ++ "0"
  | S754_finite s m e =>
      let r := scaled (Zpos m) e f in
      (if s then "-" else "")
        ++ group (decimal (r / 10 ^ Z.of_nat f))
        ++ fraction f (r mod 10 ^ Z.of_nat f)
  end.

End Intl.

Import Intl.

(** ** The page and the script *)

Module Script.

(** A value handed to a function of the script: a number or a string. *)
Inductive value := VNumber (x : number) | VString (s : string).

Definition ToString (v : value) : string :=
  match v with
  | VNumber x => numberToString x
  | VString s => s
  end.

(** The elements of the page the script reads and writes, and the
    messages shown with [alert], oldest first. Timers ([setTimeout], used
    to move the focus) are left out. *)
Record Page := {
  withdrawalModal_active : bool;
  salaryInfo_innerHTML : string;
  withdrawal_employee_id_value : string;
  withdrawal_amount_value : string;
  withdrawal_amount_max : string;
  alerts : list string
}.

Definition dq : string := String (ascii_of_nat 34) "".
Definition q (s : string) : string := dq ++ s ++ dq.

(** [formatNumber] of [openWithdrawalModal]. *)
Definition formatNumber (num : number) : string := toLocaleString_en_IN 0 num.

(** The pieces of the template literal that [openWithdrawalModal] writes
    into the salary box, one per row, white space included. *)
Definition heading (employeeName : string) : string :=
  "
        <h4 class="
  ++ q "font-semibold text-gray-800 mb-3"
  ++ ">Salary Details for "
  ++ employeeName
  ++ "</h4>
        <div class="
  ++ q "space-y-2 text-sm"
  ++ ">
            ".

Definition total_row (amount : string) : string :=
  "<div class="
  ++ q "flex justify-between"
  ++ ">
                <span class="
  ++ q "text-gray-600"
  ++ ">Total Salary:</span>
                <span class="
  ++ q "font-semibold text-green-600"
  ++ ">Rs "
  ++ amount
  ++ "</span>
            </div>
            ".

Definition withdrawn_row (amount : string) : string :=
  "<div class="
  ++ q "flex justify-between"
  ++ ">
                <span class="
  ++ q "text-gray-600"
  ++ ">Already Withdrawn:</span>
                <span class="
  ++ q "font-semibold text-orange-600"
  ++ ">Rs "
  ++ amount
  ++ "</span>
            </div>
            ".

Definition remaining_row (amount : string) : string :=
  "<div class="
  ++ q "flex justify-between pt-2 border-t border-orange-200"
  ++ ">
                <span class="
  ++ q "text-gray-700 font-medium"
  ++ ">Remaining Balance:</span>
                <span class="
  ++ q "font-bold text-blue-600"
  ++ ">Rs "
  ++ amount
  ++ "</span>
            </div>
        </div>
    ".

Definition salaryInfo (employeeName : value) (totalSalary withdrawn remaining : number) : string :=
  heading (ToString employeeName)
  ++ total_row (formatNumber totalSalary)
  ++ withdrawn_row (formatNumber withdrawn)
  ++ remaining_row (formatNumber remaining).

Definition openWithdrawalModal (employeeId employeeName : value)
    (totalSalary withdrawn : number) (p : Page) : Page :=
  let remaining := (totalSalary - withdrawn)%float in
  {| withdrawalModal_active := true;
     salaryInfo_innerHTML := salaryInfo employeeName totalSalary withdrawn remaining;
     withdrawal_employee_id_value := ToString employeeId;
     withdrawal_amount_value := "";
     withdrawal_amount_max := numberToString remaining;
     alerts := alerts p |}.

Definition closeWithdrawalModal (p : Page) : Page :=
  {| withdrawalModal_active := false;
     salaryInfo_innerHTML := salaryInfo_innerHTML p;
     withdrawal_employee_id_value := withdrawal_employee_id_value p;
     withdrawal_amount_value := withdrawal_amount_value p;
     withdrawal_amount_max := withdrawal_amount_max p;
     alerts := alerts p |}.

Definition alert (msg : string) (p : Page) : Page :=
  {| withdrawalModal_active := withdrawalModal_active p;
     salaryInfo_innerHTML := salaryInfo_innerHTML p;
     withdrawal_employee_id_value := withdrawal_employee_id_value p;
     withdrawal_amount_value := withdrawal_amount_value p;
     withdrawal_amount_max := withdrawal_amount_max p;
     alerts := alerts p ++ [msg] |}.

(** The user types [v] in the amount field. *)
Definition type_amount (v : string) (p : Page) : Page :=
  {| withdrawalModal_active := withdrawalModal_active p;
     salaryInfo_innerHTML := salaryInfo_innerHTML p;
     withdrawal_employee_id_value := withdrawal_employee_id_value p;
     withdrawal_amount_value := v;
     withdrawal_amount_max := withdrawal_amount_max p;
     alerts := alerts p |}.

(** The page in front of the user once the dialog is open for an employee
    and [v] is typed as the amount. *)
Definition dialog (employeeId employeeName : value) (totalSalary withdrawn : number)
    (v : string) (p : Page) : Page :=
  type_amount v (openWithdrawalModal employeeId employeeName totalSalary withdrawn p).

(** The number of characters after the decimal point of a displayed
    amount; [None] when it has no decimal point. *)
Fixpoint fraction_digits (s : string) : option nat :=
  match s with
  | EmptyString => None
  | String c r => if Ascii.eqb c "." then Some (String.length r) else fraction_digits r
  end.

(** [value.replace(/,/g, '')]. *)
Fixpoint remove_commas (s : string) : string :=
  match s with
  | EmptyString => EmptyString
  | String c r => if Ascii.eqb c "," then remove_commas r else String c (remove_commas r)
  end.

(** [formatCurrency(input)], as the value of the field after the call,
    given its value before. *)
Definition formatCurrency (input_value : string) : string :=
  let value := remove_commas input_value in
  if negb (isNaN (ToNumber value)) && negb (String.eqb value "")
  then toLocaleString_en_IN 3 (parseFloat value)
  else input_value.

(** A page on which nothing was opened, typed or shown yet. *)
Definition blank : Page :=
  {| withdrawalModal_active := false; salaryInfo_innerHTML := "";
     withdrawal_employee_id_value := ""; withdrawal_amount_value := "";
     withdrawal_amount_max := ""; alerts := [] |}.

Section Validation.

(** [toLocaleString()] without arguments formats in the default locale of
    the host. *)
Variable toLocaleString : number -> string.

Definition exceeds_message (maxAmount : number) : string :=
  "Withdrawal amount cannot exceed remaining balance (Rs "
    ++ toLocaleString maxAmount ++ ")".

Definition invalid_message : string := "Please enter a valid withdrawal amount".

Definition validateWithdrawal (p : Page) : bool * Page :=
  let amount := parseFloat (withdrawal_amount_value p) in
  let maxAmount := parseFloat (withdrawal_amount_max p) in
  if gt amount maxAmount then (false, alert (exceeds_message maxAmount) p)
  else if le amount 0%float then (false, alert invalid_message p)
  else (true, p).

End Validation.

End Script.

Import Script.

(** ** Whole numbers grouped the en-IN way *)

Module Display.

(** The places of the commas in a grouped whole number, stated apart from
    [group]: counting the characters from the right and from 0, the
    commas sit at the places 3, 6, 9, ... and nowhere else (three digits,
    then groups of two). [commas_at i t] checks the characters [t] that
    stand at the places [i], [i + 1], ... *)
Fixpoint commas_at (i : nat) (t : list ascii) : bool :=
  match t with
  | [] => true
  | c :: r =>
      Bool.eqb (Ascii.eqb c ",") ((3 <=? i)%nat && (i mod 3 =? 0)%nat)
      && commas_at (S i) r
  end.

(** A text with its commas at these places, that does not start with
    one. Together with its digits this fixes the text. *)
Definition en_IN_grouped (g : string) : bool :=
  let t := rev (list_ascii_of_string g) in
  commas_at 0 t && no_comma (List.last t "0"%char).

End Display.

Import Display.

(** ** The password strength indicator *)

Module Password.

(** A character class [[lo-hi]] of a regular expression. *)
Definition in_range (lo hi c : ascii) : bool :=
  (N_of_ascii lo <=? N_of_ascii c)%N && (N_of_ascii c <=? N_of_ascii hi)%N.

Definition lower (c : ascii) : bool := in_range "a" "z" c.
Definition upper (c : ascii) : bool := in_range "A" "Z" c.
Definition digit (c : ascii) : bool := in_range "0" "9" c.

(** [[^a-zA-Z0-9]]. *)
Definition other (c : ascii) : bool := negb (lower c || upper c || digit c).

(** [password.match(/[class]/)] as a condition: some character of the
    text is in the class. A text is held as its UTF-8 bytes; the bytes of
    a character outside ASCII are all above 127, in none of the three
    ranges. *)
Fixpoint matches (class : ascii -> bool) (s : string) : bool :=
  match s with
  | EmptyString => false
  | String c r => class c || matches class r
  end.

(** The UTF-16 code units a byte of UTF-8 stands for: one for a byte that
    starts a character, two when the character takes four bytes (a
    surrogate pair), none for a continuation byte. *)
Definition code_units (c : ascii) : Z :=
  let n := N_of_ascii c in
  if (n <? 128)%N then 1
  else if (n <? 192)%N then 0
  else if (n <? 240)%N then 1
  else 2.

(** [password.length]. *)
Fixpoint length (s : string) : Z :=
  match s with
  | EmptyString => 0
  | String c r => code_units c + length r
  end.

(** [a[i]]: undefined outside the array. *)
Definition index (a : list string) (i : Z) : option string :=
  if i <? 0 then None else nth_error a (Z.to_nat i).

(** [v || d] for a string or undefined [v]: the empty string is falsy. *)
Definition or_else (v : option string) (d : string) : string :=
  match v with
  | Some s => if String.eqb s "" then d else s
  | None => d
  end.

Record Strength := { score : Z; text : string; color : string }.

Definition strengthText : list string :=
  ["Very Weak"; "Weak"; "Fair"; "Good"; "Strong"].

Definition strengthColor : list string :=
  ["#ef4444"; "#f59e0b"; "#eab308"; "#10b981"; "#059669"].

(** [if (test) strength++]. *)
Definition incr (test : bool) (strength : Z) : Z :=
  if test then strength + 1 else strength.

Definition checkPasswordStrength (password : string) : Strength :=
  let strength := 0 in
  let strength := incr (8 <=? length password) strength in
  let strength := incr (matches lower password) strength in
  let strength := incr (matches upper password) strength in
  let strength := incr (matches digit password) strength in
  let strength := incr (matches other password) strength in
  {| score := strength;
     text := or_else (index strengthText (strength - 1)) "Very Weak";
     color := or_else (index strengthColor (strength - 1)) "#ef4444" |}.

End Password.

(** ** The modal dialogs *)

Module Modals.

(** An element of the page, as far as the modal functions and the two
    handlers go: its id and the tokens of its class attribute. *)
Record Element := { id : string; classList : list string }.

(** The elements of the document, in tree order. *)
Definition Document := list Element.

(** [e.classList.contains(token)], [e.classList.add(token)] and
    [e.classList.remove(token)]. *)
Definition contains (token : string) (e : Element) : bool :=
  existsb (String.eqb token) (classList e).

Definition add (token : string) (e : Element) : Element :=
  if contains token e then e
  else {| id := id e; classList := classList e ++ [token] |}.

Definition remove (token : string) (e : Element) : Element :=
  {| id := id e;
     classList := List.filter (fun t => negb (String.eqb token t)) (classList e) |}.

(** [f(document.getElementById(i))], for an [f] that changes the element
    in place: the element is the first one with that id; when there is
    none, [getElementById] is null and the access to [classList] throws a
    TypeError ([None]). *)
Fixpoint on_element (i : string) (f : Element -> Element) (d : Document) : option Document :=
  match d with
  | [] => None
  | e :: r =>
      if String.eqb (id e) i then Some (f e :: r)
      else option_map (cons e) (on_element i f r)
  end.

(** The functions of the add and the edit dialog; the timer that moves
    the focus is left out. *)
Definition openAddModal (d : Document) : option Document :=
  on_element "addEmployeeModal" (add "active") d.

Definition closeAddModal (d : Document) : option Document :=
  on_element "addEmployeeModal" (remove "active") d.

Definition closeEditModal (d : Document) : option Document :=
  on_element "editEmployeeModal" (remove "active") d.

(** [document.querySelectorAll('.modal').forEach(f)], [f] changing the
    elements in place; an element is known by its position. *)
Definition is_modal (e : Element) : bool := contains "modal" e.

Definition for_each_modal (f : nat -> Element -> Element) (d : Document) : Document :=
  imap (fun k e => if is_modal e then f k e else e) d.

(** [window.onclick], for a click whose target is the element at
    position [target]. *)
Definition window_onclick (target : nat) (d : Document) : Document :=
  for_each_modal
    (fun k modal => if Nat.eqb target k then remove "active" modal else modal) d.

(** The [keydown] handler of the document. *)
Definition keydown (key : string) (d : Document) : Document :=
  if String.eqb key "Escape"
  then for_each_modal (fun _ modal => remove "active" modal) d
  else d.

(** A page with the add dialog closed and the withdrawal dialog open. *)
Definition page : Document :=
  [ {| id := "addEmployeeModal"; classList := ["modal"] |};
    {| id := "addEmployeeForm"; classList := ["space-y-4"] |};
    {| id := "withdrawalModal"; classList := ["modal"; "active"] |} ].

End Modals.

(** ** The debounced search *)

Module Search.

(** The variable [searchTimeout] (undefined at first), the timers of the
    search that the host holds (set, and neither run nor cleared), the
    id the next timer gets, and how often the form was submitted. How
    long a timer waits is left out: the host runs a pending timer at
    some moment of its choice. *)
Record State := {
  searchTimeout : option nat;
  timers : list nat;
  next_id : nat;
  submitted : nat
}.

Definition initial : State :=
  {| searchTimeout := None; timers := []; next_id := 1; submitted := 0 |}.

(** [clearTimeout(id)]: nothing happens for undefined, or for an id that
    is not pending. *)
Definition clearTimeout (id : option nat) (pending : list nat) : list nat :=
  match id with
  | Some i => List.filter (fun j => negb (Nat.eqb j i)) pending
  | None => pending
  end.

Definition debounceSearch (st : State) : State :=
  let pending := clearTimeout (searchTimeout st) (timers st) in
  let id := next_id st in
  {| searchTimeout := Some id;
     timers := pending ++ [id];
     next_id := S id;
     submitted := submitted st |}.

(** The host runs the timer [id], if it is pending: the callback submits
    the form. *)
Definition run_timer (id : nat) (st : State) : State :=
  if existsb (Nat.eqb id) (timers st)
  then {| searchTimeout := searchTimeout st;
          timers := List.filter (fun j => negb (Nat.eqb j id)) (timers st);
          next_id := next_id st;
          submitted := S (submitted st) |}
  else st.

(** What happens on the page: an input event calls [debounceSearch], or
    the host runs a timer. *)
Inductive event := Input | Timer (id : nat).

Definition step (st : State) (ev : event) : State :=
  match ev with
  | Input => debounceSearch st
  | Timer id => run_timer id st
  end.

Definition run (evs : list event) (st : State) : State := fold_left step evs st.

(** [n] input events in a row. *)
Definition burst (n : nat) : list event := repeat Input n.

(** At most the timer in [searchTimeout] is pending, and ids are fresh. *)
Definition settled (st : State) : Prop :=
  (timers st = []
   \/ exists id, searchTimeout st = Some id /\ timers st = [id])
  /\ (forall id, searchTimeout st = Some id -> (id < next_id st)%nat).

End Search.

(** * The salary ledger

    The server side of the application (the employee and transaction
    tables and the routes that change them) is described by the
    specification only; the browser script above is its client. *)

Module Ledger.

Local Open Scope Q_scope.

(** Modelled from the spec: calendar dates, exchanged as YYYY-MM-DD; the
    store and its date handling are missing from the sources. *)
Record date := Date { year : nat; month : nat; day : nat }.

(** Modelled from the spec: "join_date is a valid calendar date". *)
Definition leap_year (y : nat) : bool :=
  ((y mod 4 =? 0) && negb (y mod 100 =? 0) || (y mod 400 =? 0))%nat.

Definition days_in_month (y m : nat) : nat :=
  match m with
  | 1 | 3 | 5 | 7 | 8 | 10 | 12 => 31
  | 4 | 6 | 9 | 11 => 30
  | 2 => if leap_year y then 29 else 28
  | _ => 0
  end%nat.

Definition valid_date (d : date) : bool :=
  ((1 <=? month d) && (month d <=? 12) && (1 <=? day d)
   && (day d <=? days_in_month (year d) (month d)))%nat.

Global Instance date_eq_dec : EqDecision date.
Proof. solve_decision. Defined.

(** Modelled from the spec: the order of transaction dates; [d1] is an
    earlier day than [d2]. *)
Definition earlier (d1 d2 : date) : Prop :=
  (year d1 < year d2
   \/ (year d1 = year d2
       /\ (month d1 < month d2 \/ (month d1 = month d2 /\ day d1 < day d2))))%nat.

(** Modelled from the spec: the Employee record of section 3 (the id is
    the key under which the store keeps it). *)
Record Employee := {
  name : string;
  designation : string;
  monthly_salary : Q;
  join_date : date
}.

(** Modelled from the spec: the Withdrawal Transaction of section 3. Ids
    are handed out in creation order. *)
Record Transaction := {
  tx_id : nat;
  employee_id : nat;
  amount : Q;
  tx_date : date;
  note : option string
}.

(** Modelled from the spec: the persisted store, an employee table and a
    transaction table (oldest first), with the next free id of each. *)
Record Store := {
  employees : gmap nat Employee;
  transactions : list Transaction;
  next_employee_id : nat;
  next_tx_id : nat
}.

Definition empty_store : Store :=
  {| employees := ∅; transactions := []; next_employee_id := 1; next_tx_id := 1 |}.

(** Modelled from the spec: the error taxonomy of section 7, each error
    with its context (field name, computed remaining balance, id). *)
Inductive error :=
| ValidationError (field : string) (remaining : option Q)
| NotFoundError (id : nat).

(** Modelled from the spec: a command returns "either a success value or
    a tagged error". *)
Inductive result (A : Type) :=
| Ok (a : A)
| Err (e : error).
Arguments Ok {A} a.
Arguments Err {A} e.

(** Modelled from the spec: the sum of the amounts of transactions, and
    the transactions of one employee. *)
Definition sum_amounts (l : list Transaction) : Q :=
  foldr (fun t acc => amount t + acc) 0 l.

Definition transactions_of (id : nat) (s : Store) : list Transaction :=
  List.filter (fun t => Nat.eqb (employee_id t) id) (transactions s).

(** Modelled from the spec: the derived quantities of section 3,
    [withdrawn(employee)] and [remaining(employee)]. *)
Definition withdrawn (id : nat) (s : Store) : Q := sum_amounts (transactions_of id s).

(** Modelled from the spec: [remaining(employee) = monthly_salary -
    withdrawn(employee)], for an employee of the store. *)
Definition remaining (id : nat) (s : Store) : option Q :=
  match employees s !! id with
  | Some e => Some (monthly_salary e - withdrawn id s)
  | None => None
  end.

(** Modelled from the spec: the constraints on the fields of an employee
    (name non-empty, salary non-negative, join date a calendar date). *)
Definition valid_fields (name : string) (salary : Q) (join : date) : option error :=
  if String.eqb name "" then Some (ValidationError "name" None)
  else if negb (Qle_bool 0 salary) then Some (ValidationError "monthly_salary" None)
  else if negb (valid_date join) then Some (ValidationError "join_date" None)
  else None.

(** Modelled from the spec: [addEmployee] of section 4.1. *)
Definition addEmployee (name designation : string) (salary : Q) (join : date)
    (s : Store) : result (nat * Employee) * Store :=
  match valid_fields name salary join with
  | Some err => (Err err, s)
  | None =>
      let e := {| name := name; designation := designation;
                  monthly_salary := salary; join_date := join |} in
      let id := next_employee_id s in
      (Ok (id, e),
       {| employees := <[id := e]> (employees s);
          transactions := transactions s;
          next_employee_id := S id;
          next_tx_id := next_tx_id s |})
  end.

(** Modelled from the spec: [editEmployee] of section 4.1, all four
    fields supplied; existing transactions are left as they are. *)
Definition editEmployee (id : nat) (name designation : string) (salary : Q)
    (join : date) (s : Store) : result Employee * Store :=
  match employees s !! id with
  | None => (Err (NotFoundError id), s)
  | Some _ =>
      match valid_fields name salary join with
      | Some err => (Err err, s)
      | None =>
          let e := {| name := name; designation := designation;
                      monthly_salary := salary; join_date := join |} in
          (Ok e,
           {| employees := <[id := e]> (employees s);
              transactions := transactions s;
              next_employee_id := next_employee_id s;
              next_tx_id := next_tx_id s |})
      end
  end.

(** Modelled from the spec: [deleteEmployee] of section 4.1: the employee
    and all its transactions go in one step. *)
Definition deleteEmployee (id : nat) (s : Store) : result unit * Store :=
  match employees s !! id with
  | None => (Err (NotFoundError id), s)
  | Some _ =>
      (Ok tt,
       {| employees := delete id (employees s);
          transactions := List.filter (fun t => negb (Nat.eqb (employee_id t) id)) (transactions s);
          next_employee_id := next_employee_id s;
          next_tx_id := next_tx_id s |})
  end.

(** Modelled from the spec: [recordWithdrawal] of section 4.1; [today] is
    the submission date, used when no date is given. *)
Definition recordWithdrawal (today : date) (id : nat) (amt : Q)
    (d : option date) (n : option string) (s : Store) : result Transaction * Store :=
  match employees s !! id with
  | None => (Err (NotFoundError id), s)
  | Some e =>
      let rest := monthly_salary e - withdrawn id s in
      if Qle_bool amt 0 then (Err (ValidationError "amount" (Some rest)), s)
      else if negb (Qle_bool amt rest) then (Err (ValidationError "amount" (Some rest)), s)
      else
        let t := {| tx_id := next_tx_id s; employee_id := id; amount := amt;
                    tx_date := default today d; note := n |} in
        (Ok t,
         {| employees := employees s;
            transactions := transactions s ++ [t];
            next_employee_id := next_employee_id s;
            next_tx_id := S (next_tx_id s) |})
  end.

(** Modelled from the spec: the order of the recent transactions, "date
    descending, ties broken by creation order descending"; [newer t1 t2]
    when [t1] is listed before [t2]. *)
Definition newer (t1 t2 : Transaction) : Prop :=
  earlier (tx_date t2) (tx_date t1)
  \/ (tx_date t2 = tx_date t1 /\ (tx_id t2 <= tx_id t1)%nat).

Global Instance newer_dec : RelDecision newer.
Proof. intros t1 t2. unfold newer, earlier. apply _. Defined.

(** Modelled from the spec: the result of [getDashboardSummary]. *)
Record Summary := {
  employee_count : nat;
  total_salary : Q;
  total_withdrawn : Q;
  total_remaining : Q;
  recent_transactions : list Transaction
}.

(** Modelled from the spec: the sum of the monthly salaries of the
    employees of the store. *)
Definition sum_salaries (m : gmap nat Employee) : Q :=
  foldr (fun e acc => monthly_salary e + acc) 0 (map snd (map_to_list m)).

(** Modelled from the spec: [getDashboardSummary] of section 4.1. *)
Definition getDashboardSummary (s : Store) : Summary :=
  let salary := sum_salaries (employees s) in
  let paid := sum_amounts (transactions s) in
  {| employee_count := size (employees s);
     total_salary := salary;
     total_withdrawn := paid;
     total_remaining := salary - paid;
     recent_transactions := take 10 (merge_sort newer (transactions s)) |}.

(** The commands of the ledger that leave salaries as they are, and the
    store after a sequence of them. *)
Inductive command :=
| AddEmployee (name designation : string) (salary : Q) (join : date)
| DeleteEmployee (id : nat)
| RecordWithdrawal (today : date) (id : nat) (amt : Q) (d : option date) (n : option string).

Definition run (c : command) (s : Store) : Store :=
  match c with
  | AddEmployee n d sal j => snd (addEmployee n d sal j s)
  | DeleteEmployee id => snd (deleteEmployee id s)
  | RecordWithdrawal today id amt d n => snd (recordWithdrawal today id amt d n s)
  end.

Definition run_all (cs : list command) (s : Store) : Store :=
  foldl (fun s c => run c s) s cs.

(** The scenario of the specification: employee A with a salary of 30000
    withdraws 10000, is refused 25000, withdraws 20000. *)
Definition scenario : list command :=
  [ AddEmployee "A" "Cook" 30000 (Date 2024 1 1);
    RecordWithdrawal (Date 2024 1 10) 1 10000 None None;
    RecordWithdrawal (Date 2024 1 11) 1 25000 None None;
    RecordWithdrawal (Date 2024 1 12) 1 20000 (Some (Date 2024 1 5)) None ].

(** The tables fit together: every transaction belongs to an employee of
    the store, and the ids in use are below the next free ones. *)
Definition well_formed (s : Store) : Prop :=
  (forall t, In t (transactions s) -> is_Some (employees s !! employee_id t))
  /\ (forall id, is_Some (employees s !! id) -> (id < next_employee_id s)%nat)
  /\ (forall t, In t (transactions s) -> (tx_id t < next_tx_id s)%nat).

(** No employee is overdrawn. *)
Definition solvent (s : Store) : Prop :=
  forall id r, remaining id s = Some r -> 0 <= r.

End Ledger.

(** * Properties *)

(** ** Comparing numbers *)

Module NumberFacts.

Lemma SFcompare_swap (x y : spec_float) :
  SFcompare y x = option_map CompOpp (SFcompare x y).
Proof.
  destruct x as [sx|sx| |sx mx ex], y as [sy|sy| |sy my ey]; simpl;
    try reflexivity; try (destruct sx; reflexivity);
    try (destruct sy; reflexivity);
    try (destruct sx, sy; reflexivity).
  destruct sx, sy; simpl; try reflexivity;
    rewrite (Z.compare_antisym ex ey); destruct (ex ?= ey)%Z eqn:E; simpl;
    try reflexivity; change (Pos.compare_cont Eq ?a ?b) with (Pos.compare a b);
    rewrite (Pos.compare_antisym mx my); destruct (mx ?= my)%positive;
    reflexivity.
Qed.

Lemma SFcompare_refl (x : spec_float) :
  x <> S754_nan -> SFcompare x x = Some Eq.
Proof.
  destruct x as [s|s| |s m e]; simpl; intros H; try congruence;
    try (destruct s; reflexivity).
  destruct s; rewrite Z.compare_refl;
    change (Pos.compare_cont Eq m m) with (Pos.compare m m);
    rewrite Pos.compare_refl; reflexivity.
Qed.

(** [x <= y] excludes [y < x]. *)
Lemma le_not_gt (x y : number) : le x y = true -> gt x y = false.
Proof.
  unfold le, gt. rewrite FloatAxioms.leb_spec, FloatAxioms.ltb_spec. unfold SFleb, SFltb.
  rewrite (SFcompare_swap (Prim2SF x) (Prim2SF y)).
  destruct (SFcompare (Prim2SF x) (Prim2SF y)) as [[]|]; simpl; congruence.
Qed.

(** [x < y] excludes [y <= x]. *)
Lemma lt_not_ge (x y : number) : lt x y = true -> le y x = false.
Proof.
  unfold le, lt. rewrite FloatAxioms.leb_spec, FloatAxioms.ltb_spec. unfold SFleb, SFltb.
  rewrite (SFcompare_swap (Prim2SF x) (Prim2SF y)).
  destruct (SFcompare (Prim2SF x) (Prim2SF y)) as [[]|]; simpl; congruence.
Qed.

Lemma isNaN_spec (x : number) : isNaN x = true <-> x = NaN.
Proof.
  unfold isNaN. rewrite FloatAxioms.eqb_spec. unfold SFeqb. split.
  - intros H. apply Prim2SF_inj. change (Prim2SF NaN) with S754_nan.
    destruct (Prim2SF x) eqn:E; try reflexivity;
      rewrite SFcompare_refl in H by congruence; discriminate.
  - intros ->. reflexivity.
Qed.

(** NaN compares false with everything. *)
Lemma NaN_not_gt (y : number) : gt NaN y = false.
Proof.
  unfold gt. rewrite FloatAxioms.ltb_spec. change (Prim2SF NaN) with S754_nan.
  unfold SFltb. destruct (Prim2SF y); reflexivity.
Qed.

Lemma NaN_not_le (y : number) : le NaN y = false.
Proof. unfold le. rewrite FloatAxioms.leb_spec. reflexivity. Qed.

(** A number below zero is below every number above zero. *)
Lemma lt_through_zero (x y : number) :
  lt x 0%float = true -> lt 0%float y = true -> lt x y = true.
Proof.
  unfold lt. rewrite !FloatAxioms.ltb_spec. change (Prim2SF 0%float) with (S754_zero false).
  unfold SFltb.
  destruct (Prim2SF x) as [sx|sx| |sx mx ex], (Prim2SF y) as [sy|sy| |sy my ey];
    simpl; try discriminate; try (destruct sx; discriminate);
    try (destruct sy; discriminate);
    destruct sx, sy; simpl; try discriminate; reflexivity.
Qed.

(** [x + 0] is [x], with the negative zero turned into the positive one. *)
Lemma plus_zero_spec (x : number) :
  Prim2SF (x + 0)%float =
  match Prim2SF x with S754_zero _ => S754_zero false | v => v end.
Proof.
  rewrite add_spec. change (Prim2SF 0%float) with (S754_zero false).
  destruct (Prim2SF x) as [[]|[]| |s m e]; reflexivity.
Qed.

(** Comparisons do not see the sign of a zero. *)
Lemma SFcompare_plus_zero_r (x y : number) :
  SFcompare (Prim2SF x) (Prim2SF (y + 0)%float) = SFcompare (Prim2SF x) (Prim2SF y).
Proof.
  rewrite plus_zero_spec.
  destruct (Prim2SF x) as [sx|sx| |sx mx ex], (Prim2SF y) as [sy|sy| |sy my ey];
    reflexivity.
Qed.

Lemma gt_plus_zero (x y : number) : gt x (y + 0)%float = gt x y.
Proof.
  unfold gt. rewrite !FloatAxioms.ltb_spec. unfold SFltb.
  rewrite (SFcompare_swap (Prim2SF x) (Prim2SF (y + 0)%float)).
  rewrite (SFcompare_swap (Prim2SF x) (Prim2SF y)).
  now rewrite SFcompare_plus_zero_r.
Qed.

Lemma le_plus_zero (x y : number) : le x (y + 0)%float = le x y.
Proof.
  unfold le. rewrite !FloatAxioms.leb_spec. unfold SFleb.
  now rewrite SFcompare_plus_zero_r.
Qed.

Lemma lt_plus_zero_l (x y : number) : lt (x + 0)%float y = lt x y.
Proof.
  unfold lt. rewrite !FloatAxioms.ltb_spec. unfold SFltb.
  rewrite (SFcompare_swap (Prim2SF y) (Prim2SF (x + 0)%float)).
  rewrite (SFcompare_swap (Prim2SF y) (Prim2SF x)).
  now rewrite SFcompare_plus_zero_r.
Qed.

End NumberFacts.

Import NumberFacts.

(** ** Reading back what [numberToString] prints *)

Module PrintFacts.

Lemma digit_char_digit (d : Z) :
  0 <= d < 10 -> is_digit (digit_char d) = true /\ digit_value (digit_char d) = d.
Proof.
  intros H.
  assert (d = 0 \/ d = 1 \/ d = 2 \/ d = 3 \/ d = 4 \/ d = 5 \/ d = 6
          \/ d = 7 \/ d = 8 \/ d = 9) as C by lia.
  repeat (destruct C as [-> | C]; [split; reflexivity|]).
  subst d. split; reflexivity.
Qed.

Lemma fixed_app (w : nat) (n : Z) (r1 r2 : string) :
  (fixed w n r1 ++ r2)%string = fixed w n (r1 ++ r2)%string.
Proof.
  revert n r1. induction w as [|w IH]; intros n r1; simpl; [reflexivity|].
  now rewrite IH.
Qed.

(** Reading the [w] digits printed by [fixed] adds them to the value read
    so far. *)
Lemma digits_fixed (w : nat) (n : Z) (rest : string) (a c : Z) :
  digits (fixed w n rest) a c
  = digits rest (a * 10 ^ Z.of_nat w + n mod 10 ^ Z.of_nat w) (c + Z.of_nat w).
Proof.
  revert n rest a c. induction w as [|w IH]; intros n rest a c.
  - simpl fixed. change (10 ^ Z.of_nat 0) with 1. rewrite Z.mod_1_r.
    f_equal; lia.
  - simpl fixed. rewrite IH. simpl digits.
    destruct (digit_char_digit (n mod 10)) as [Hd Hv].
    { apply Z.mod_pos_bound. lia. }
    rewrite Hd, Hv.
    rewrite Nat2Z.inj_succ, Z.pow_succ_r by lia.
    rewrite (Z.rem_mul_r n 10 (10 ^ Z.of_nat w)) by lia.
    f_equal; lia.
Qed.

Lemma fixed_head (w : nat) (n : Z) (rest : string) :
  exists d r, 0 <= d < 10 /\ fixed (S w) n rest = String (digit_char d) r.
Proof.
  revert n rest. induction w as [|w IH]; intros n rest.
  - exists (n mod 10), rest. split; [apply Z.mod_pos_bound; lia | reflexivity].
  - change (fixed (S (S w)) n rest)
      with (fixed (S w) (n / 10) (String (digit_char (n mod 10)) rest)).
    apply IH.
Qed.

Lemma count_digits_bound (fuel : nat) (n : Z) :
  0 <= n < 2 ^ (Z.of_nat fuel + 1) ->
  n < 10 ^ Z.of_nat (count_digits fuel n).
Proof.
  revert n. induction fuel as [|f IH]; intros n H.
  - simpl in *. lia.
  - simpl count_digits. destruct (n <? 10) eqn:E.
    + apply Z.ltb_lt in E. simpl. lia.
    + apply Z.ltb_ge in E.
      rewrite Nat2Z.inj_succ, Z.pow_succ_r by lia.
      assert (n / 10 < 10 ^ Z.of_nat (count_digits f (n / 10))) as IH'.
      { apply IH. split; [apply Z.div_pos; lia|].
        apply Z.div_lt_upper_bound; [lia|].
        replace (Z.of_nat (S f) + 1) with (Z.succ (Z.of_nat f + 1)) in H by lia.
        rewrite Z.pow_succ_r in H by lia. lia. }
      pose proof (Z.div_mod n 10 ltac:(lia)) as Hdm.
      pose proof (Z.mod_pos_bound n 10 ltac:(lia)). lia.
Qed.

Lemma ndigits_bound (n : Z) : 0 <= n -> n < 10 ^ Z.of_nat (ndigits n).
Proof.
  intros H. unfold ndigits. apply count_digits_bound. split; [assumption|].
  destruct (Z.eq_dec n 0) as [->|Hn]; [simpl; lia|].
  rewrite Z2Nat.id by apply Z.log2_nonneg.
  replace (Z.log2 n + 1) with (Z.succ (Z.log2 n)) by lia.
  apply Z.log2_spec. lia.
Qed.

Lemma ndigits_succ (n : Z) : exists w, ndigits n = S w.
Proof.
  unfold ndigits. destruct (Z.to_nat (Z.log2 n)); simpl.
  - now exists O.
  - destruct (n <? 10); eauto.
Qed.

Lemma decimal_head (n : Z) :
  exists d r, 0 <= d < 10 /\ decimal n = String (digit_char d) r.
Proof.
  unfold decimal. destruct (ndigits_succ n) as [w ->]. apply fixed_head.
Qed.

Lemma prefix_Infinity_digit (d : Z) (r : string) :
  0 <= d < 10 -> String.prefix "Infinity" (String (digit_char d) r) = false.
Proof.
  intros H.
  assert (d = 0 \/ d = 1 \/ d = 2 \/ d = 3 \/ d = 4 \/ d = 5 \/ d = 6
          \/ d = 7 \/ d = 8 \/ d = 9) as C by lia.
  repeat (destruct C as [-> | C]; [reflexivity|]).
  subst d. reflexivity.
Qed.

(** The digits of a natural number read as that number. *)
Lemma literal_decimal (n : Z) :
  0 <= n -> literal (decimal n) = Some (of_decimal n 0, "").
Proof.
  intros H. unfold literal.
  destruct (decimal_head n) as (d & r & Hd & E).
  rewrite E at 1. rewrite prefix_Infinity_digit by assumption.
  unfold decimal. rewrite digits_fixed. cbn [digits exponent_part].
  rewrite Z.mod_small by (split; [assumption | apply ndigits_bound; assumption]).
  destruct (ndigits_succ n) as [w ->].
  replace (0 + Z.of_nat (S w) =? 0) with false by (symmetry; apply Z.eqb_neq; lia).
  do 3 f_equal; lia.
Qed.

Lemma unsigned_decimal_decimal (n : Z) :
  0 <= n -> unsigned_decimal (decimal n) = Some (of_decimal n 0).
Proof. intros H. unfold unsigned_decimal. now rewrite literal_decimal. Qed.

(** An integer part, a point and [w] fraction digits read as the decimal
    they spell. *)
Lemma literal_point (i f : Z) (w : nat) :
  0 <= i ->
  literal (decimal i ++ "." ++ fixed w f "")
  = Some (of_decimal (i * 10 ^ Z.of_nat w + f mod 10 ^ Z.of_nat w) (- Z.of_nat w), "").
Proof.
  intros H. unfold literal.
  destruct (decimal_head i) as (d & r & Hd & E).
  rewrite E at 1.
  change (String (digit_char d) r ++ "." ++ fixed w f "")%string
    with (String (digit_char d) (r ++ "." ++ fixed w f "")).
  rewrite prefix_Infinity_digit by assumption.
  unfold decimal. rewrite fixed_app. rewrite digits_fixed.
  change ("" ++ "." ++ fixed w f "")%string with (String "."%char (fixed w f "")).
  cbn [digits]. change (is_digit ".") with false. cbv iota.
  rewrite digits_fixed. cbn [digits].
  rewrite Z.mod_small by (split; [assumption | apply ndigits_bound; assumption]).
  destruct (ndigits_succ i) as [w' ->].
  replace (0 + Z.of_nat (S w') =? 0) with false by (symmetry; apply Z.eqb_neq; lia).
  cbn [andb exponent_part]. do 3 f_equal; lia.
Qed.

Lemma unsigned_decimal_point (i f : Z) (w : nat) :
  0 <= i ->
  unsigned_decimal (decimal i ++ "." ++ fixed w f "")
  = Some (of_decimal (i * 10 ^ Z.of_nat w + f mod 10 ^ Z.of_nat w) (- Z.of_nat w)).
Proof. intros H. unfold unsigned_decimal. now rewrite literal_point. Qed.

(** *** The number value of a decimal *)

Lemma ge_pow2_shift (A B g K : Z) :
  0 <= K -> 0 <= g + K ->
  ge_pow2 A B g = (B * 2 ^ (g + K) <=? A * 2 ^ K).
Proof.
  intros HK HgK. unfold ge_pow2.
  assert (0 < 2 ^ K) as HpK by (apply Z.pow_pos_nonneg; lia).
  destruct (0 <=? g) eqn:E.
  - apply Z.leb_le in E. rewrite Z.pow_add_r by lia.
    apply eq_true_iff_eq. rewrite !Z.leb_le. nia.
  - apply Z.leb_gt in E.
    replace K with (- g + (g + K)) at 2 by lia.
    rewrite (Z.pow_add_r 2 (- g) (g + K)) by lia.
    assert (0 < 2 ^ (g + K)) by (apply Z.pow_pos_nonneg; lia).
    apply eq_true_iff_eq. rewrite !Z.leb_le. nia.
Qed.

Lemma ge_pow2_mono (A B g g' : Z) :
  0 <= B -> ge_pow2 A B g = true -> g' <= g -> ge_pow2 A B g' = true.
Proof.
  intros HB H Hle.
  set (K := Z.max 0 (- g')).
  rewrite (ge_pow2_shift A B g K) in H by lia.
  rewrite (ge_pow2_shift A B g' K) by lia.
  apply Z.leb_le in H. apply Z.leb_le.
  assert (2 ^ (g' + K) <= 2 ^ (g + K)) by (apply Z.pow_le_mono_r; lia).
  nia.
Qed.

Lemma magnitude_spec (A B : Z) :
  0 < A -> 0 < B ->
  ge_pow2 A B (magnitude A B - 1) = true /\ ge_pow2 A B (magnitude A B) = false.
Proof.
  intros HA HB.
  pose proof (Z.log2_spec A HA) as [La Ua].
  pose proof (Z.log2_spec B HB) as [Lb Ub].
  pose proof (Z.log2_nonneg A). pose proof (Z.log2_nonneg B).
  set (a := Z.log2 A) in *. set (b := Z.log2 B) in *.
  assert (ge_pow2 A B (a - b - 1) = true) as Lo.
  { rewrite (ge_pow2_shift A B _ (b + 1)) by lia.
    replace (a - b - 1 + (b + 1)) with a by lia.
    apply Z.leb_le.
    replace (b + 1) with (Z.succ b) by lia.
    assert (0 < 2 ^ a) by (apply Z.pow_pos_nonneg; lia). nia. }
  assert (ge_pow2 A B (a - b + 1) = false) as Hi.
  { rewrite (ge_pow2_shift A B _ b) by lia.
    replace (a - b + 1 + b) with (Z.succ a) by lia.
    apply Z.leb_gt.
    assert (0 < 2 ^ b) by (apply Z.pow_pos_nonneg; lia). nia. }
  unfold magnitude. fold a b.
  destruct (ge_pow2 A B (a - b)) eqn:E.
  - replace (a - b + 1 - 1) with (a - b) by lia. auto.
  - auto.
Qed.

Lemma magnitude_unique (A B g : Z) :
  0 < A -> 0 < B ->
  ge_pow2 A B (g - 1) = true -> ge_pow2 A B g = false -> magnitude A B = g.
Proof.
  intros HA HB Lo Hi.
  destruct (magnitude_spec A B HA HB) as [Lo' Hi'].
  destruct (Z.lt_trichotomy (magnitude A B) g) as [C|[C|C]]; [|assumption|].
  - rewrite (ge_pow2_mono A B (g - 1) (magnitude A B)) in Hi' by (assumption || lia).
    discriminate.
  - rewrite (ge_pow2_mono A B (magnitude A B - 1) g) in Hi by (assumption || lia).
    discriminate.
Qed.

Lemma digits2_log2 (m : positive) : Zpos (digits2_pos m) = Z.log2 (Zpos m) + 1.
Proof.
  assert (forall p, digits2_pos p = Pos.size p) as S.
  { induction p; simpl; congruence. }
  rewrite S. destruct m; simpl; lia.
Qed.

Lemma round_half_even_exact (m D : Z) : 0 < D -> round_half_even (m * D) D = m.
Proof.
  intros HD. unfold round_half_even.
  rewrite Z.mod_mul, Z.div_mul by lia.
  change (2 * 0) with 0. destruct (0 ?= D) eqn:E; try reflexivity.
  - apply Z.compare_eq in E. lia.
  - apply Z.compare_gt_iff in E. lia.
Qed.

(** The number value of the exact decimal expansion of a binary64 value is
    that value. *)
Lemma of_decimal_exact (y : number) (m : positive) (e : Z) :
  Prim2SF y = S754_finite false m e ->
  (if 0 <=? e then of_decimal (Zpos m * 2 ^ e) 0
   else of_decimal (Zpos m * 5 ^ (- e)) (- Z.of_nat (Z.to_nat (- e)))) = y.
Proof.
  intros E.
  pose proof (Prim2SF_valid y) as V. rewrite E in V. simpl in V.
  apply andb_prop in V as [C Hb]. unfold canonical_mantissa in C.
  apply Z.eqb_eq in C. apply Z.leb_le in Hb. rewrite digits2_log2 in C.
  pose proof (Z.log2_spec (Zpos m) eq_refl) as [Lm Um].
  pose proof (Z.log2_nonneg (Zpos m)) as Hl.
  assert (Z.pos m < 2 ^ prec) as Hm.
  { eapply Z.lt_le_trans; [exact Um|]. apply Z.pow_le_mono_r; [lia|].
    unfold fexp, prec in *. lia. }
  set (l := Z.log2 (Z.pos m)) in *.
  rewrite <- (SF2Prim_Prim2SF y), E.
  assert (forall A B, 0 < A -> 0 < B ->
            magnitude A B = l + 1 + e -> significand A B e = Z.pos m ->
            of_rational A B = SF2Prim (S754_finite false m e)) as Rat.
  { intros A B HA HB Mg Sg. unfold of_rational. rewrite Mg, C, Sg.
    replace (Z.pos m =? 0) with false by (symmetry; apply Z.eqb_neq; lia).
    replace (Z.pos m =? 2 ^ prec) with false by (symmetry; apply Z.eqb_neq; lia).
    replace (emax - prec <? e) with false by (symmetry; apply Z.ltb_ge; lia).
    reflexivity. }
  destruct (0 <=? e) eqn:He.
  - apply Z.leb_le in He.
    assert (0 < 2 ^ e) by (apply Z.pow_pos_nonneg; lia).
    unfold of_decimal.
    replace (Z.pos m * 2 ^ e =? 0) with false by (symmetry; apply Z.eqb_neq; nia).
    change (0 <=? 0) with true. cbv iota. change (10 ^ 0) with 1. rewrite Z.mul_1_r.
    apply Rat; try nia.
    + apply magnitude_unique; try nia.
      * rewrite (ge_pow2_shift _ _ _ 0) by lia.
        apply Z.leb_le. replace (l + 1 + e - 1 + 0) with (l + e) by lia.
        rewrite Z.pow_add_r by lia. change (2 ^ 0) with 1. nia.
      * rewrite (ge_pow2_shift _ _ _ 0) by lia.
        apply Z.leb_gt. replace (l + 1 + e + 0) with (Z.succ l + e) by lia.
        rewrite Z.pow_add_r by lia. change (2 ^ 0) with 1. nia.
    + unfold significand. apply Z.leb_le in He as He'. rewrite He'.
      rewrite Z.mul_1_l, round_half_even_exact by lia. reflexivity.
  - apply Z.leb_gt in He.
    rewrite Z2Nat.id by lia. rewrite Z.opp_involutive.
    set (w := - e) in *.
    assert (0 < 2 ^ w) by (apply Z.pow_pos_nonneg; lia).
    assert (0 < 5 ^ w) by (apply Z.pow_pos_nonneg; lia).
    assert (10 ^ w = 2 ^ w * 5 ^ w) as E10 by (rewrite <- Z.pow_mul_l; reflexivity).
    unfold of_decimal.
    replace (Z.pos m * 5 ^ w =? 0) with false by (symmetry; apply Z.eqb_neq; nia).
    replace (0 <=? e) with false by (symmetry; apply Z.leb_gt; lia).
    cbv iota. replace (- e) with w by reflexivity.
    apply Rat; try nia.
    + apply magnitude_unique; try nia.
      * rewrite (ge_pow2_shift _ _ _ w) by lia.
        apply Z.leb_le. replace (l + 1 + e - 1 + w) with l by lia. nia.
      * rewrite (ge_pow2_shift _ _ _ w) by lia.
        apply Z.leb_gt. replace (l + 1 + e + w) with (Z.succ l) by lia. nia.
    + unfold significand.
      replace (0 <=? e) with false by (symmetry; apply Z.leb_gt; lia).
      replace (- e) with w by reflexivity.
      replace (Z.pos m * 5 ^ w * 2 ^ w) with (Z.pos m * 10 ^ w) by nia.
      rewrite round_half_even_exact by nia. reflexivity.
Qed.

(** *** Printing, then reading *)

Lemma exact_reads (y : number) (m : positive) (e : Z) :
  Prim2SF y = S754_finite false m e ->
  unsigned_decimal (exact (Zpos m) e) = Some y.
Proof.
  intros E. pose proof (of_decimal_exact y m e E) as X. unfold exact.
  destruct (0 <=? e) eqn:He.
  - rewrite unsigned_decimal_decimal; [now rewrite X|].
    apply Z.leb_le in He. apply Z.mul_nonneg_nonneg; [lia|].
    apply Z.pow_nonneg; lia.
  - apply Z.leb_gt in He.
    assert (0 < 10 ^ (- e)) as H10 by (apply Z.pow_pos_nonneg; lia).
    assert (0 < 5 ^ (- e)) as H5 by (apply Z.pow_pos_nonneg; lia).
    rewrite unsigned_decimal_point.
    + rewrite Z2Nat.id in * by lia.
      rewrite Z.mul_comm, <- Z.div_mod by lia. now rewrite X.
    + apply Z.div_pos; nia.
Qed.

Lemma first_reading_reads (y : number) (c : list (Z * Z)) (t : string) :
  first_reading y c = Some t -> reads_as t y = true.
Proof.
  unfold first_reading.
  destruct (List.filter _ _) as [|t' l] eqn:E; [discriminate|].
  intros [= <-].
  assert (In t' (t' :: l)) as I by (left; reflexivity).
  rewrite <- E in I. apply filter_In in I. apply I.
Qed.

Lemma shortest_reads (fuel : nat) (y : number) (A B n k : Z) (t : string) :
  shortest fuel y A B n k = Some t -> reads_as t y = true.
Proof.
  revert k. induction fuel as [|f IH]; intros k; simpl; [discriminate|].
  destruct (first_reading y (candidates A B n k)) as [t'|] eqn:E.
  - intros [= <-]. eapply first_reading_reads, E.
  - apply IH.
Qed.

Lemma reads_as_spec (t : string) (y : number) :
  reads_as t y = true -> unsigned_decimal t = Some y.
Proof.
  unfold reads_as. destruct (unsigned_decimal t) as [z|]; [|discriminate].
  intros H. apply Leibniz.eqb_spec in H. now subst.
Qed.

(** What [numberToString] prints for a positive finite number reads as
    that number. *)
Lemma positive_to_string_reads (y : number) (m : positive) (e : Z) :
  Prim2SF y = S754_finite false m e ->
  unsigned_decimal (positive_to_string y (Zpos m) e) = Some y.
Proof.
  intros E. unfold positive_to_string.
  destruct (if 0 <=? e then _ else _) as [A B].
  destruct (shortest _ _ _ _ _ _) as [t|] eqn:S.
  - apply reads_as_spec. eapply shortest_reads, S.
  - now apply exact_reads.
Qed.

(** A numeric string starts with neither white space nor a sign. *)
Lemma unsigned_decimal_head (c : ascii) (r : string) (y : number) :
  unsigned_decimal (String c r) = Some y ->
  is_white_space c = false /\ c <> "+"%char /\ c <> "-"%char.
Proof.
  intros H.
  destruct c as [[] [] [] [] [] [] [] []];
    try (split; [reflexivity | split; discriminate]);
    exfalso; revert H; unfold unsigned_decimal, literal; cbn; discriminate.
Qed.

Lemma parseFloat_unsigned (t : string) (y : number) :
  unsigned_decimal t = Some y -> parseFloat t = y.
Proof.
  intros H. unfold parseFloat. destruct t as [|c r].
  - discriminate H.
  - destruct (unsigned_decimal_head c r y H) as (W & P & M).
    cbn [trim_start]. rewrite W.
    destruct c as [[] [] [] [] [] [] [] []]; try congruence; now rewrite H.
Qed.

Lemma parseFloat_minus (t : string) (y : number) :
  unsigned_decimal t = Some y -> parseFloat ("-" ++ t) = (- y)%float.
Proof.
  intros H. unfold parseFloat.
  change ("-" ++ t) with (String "-"%char t). cbn [trim_start].
  change (is_white_space "-") with false. cbv iota. now rewrite H.
Qed.

(** Reading back the text of a number gives the number, up to the sign of
    zero: [parseFloat(String(x))] is [x + 0]. *)
Theorem parseFloat_numberToString (x : number) :
  parseFloat (numberToString x) = (x + 0)%float.
Proof.
  apply Prim2SF_inj. rewrite plus_zero_spec. unfold numberToString.
  destruct (Prim2SF x) as [s|s| |s m e] eqn:E.
  - reflexivity.
  - destruct s; reflexivity.
  - reflexivity.
  - assert (Prim2SF (abs x) = S754_finite false m e) as Ea
      by (rewrite abs_spec, E; reflexivity).
    pose proof (positive_to_string_reads _ _ _ Ea) as R.
    destruct s.
    + rewrite (parseFloat_minus _ _ R), opp_spec, Ea. reflexivity.
    + change ("" ++ ?t) with t. rewrite (parseFloat_unsigned _ _ R). exact Ea.
Qed.

End PrintFacts.

Import PrintFacts.

(** ** Rounding to a number, rounding to thousandths *)

Module RoundingFacts.

(** *** Rounding *)

Lemma div_mod_cases (N D : Z) :
  0 < D -> exists q r, N = D * q + r /\ 0 <= r < D /\ N / D = q /\ N mod D = r.
Proof.
  intros HD. exists (N / D), (N mod D). repeat split.
  - apply Z.div_mod. lia.
  - apply Z.mod_pos_bound, HD.
  - apply Z.mod_pos_bound, HD.
Qed.

Lemma round_half_even_bounds (N D : Z) :
  0 < D -> - D <= 2 * (round_half_even N D * D - N) <= D.
Proof.
  intros HD. unfold round_half_even.
  destruct (div_mod_cases N D HD) as (q & r & -> & B & -> & ->).
  destruct (2 * r ?= D) eqn:C.
  - apply Z.compare_eq in C. destruct (Z.even q); cbv iota; lia.
  - rewrite Z.compare_lt_iff in C. lia.
  - rewrite Z.compare_gt_iff in C. lia.
Qed.

Lemma round_half_even_unique (N D m : Z) :
  0 < D -> - D < 2 * (m * D - N) < D -> round_half_even N D = m.
Proof.
  intros HD H. pose proof (round_half_even_bounds N D HD) as B.
  set (M := round_half_even N D) in *. clearbody M. nia.
Qed.

Lemma round_half_expand_bounds (N D : Z) :
  0 < D -> - D <= 2 * (N - round_half_expand N D * D) < D.
Proof.
  intros HD. unfold round_half_expand.
  destruct (div_mod_cases N D HD) as (q & r & -> & B & -> & ->).
  destruct (2 * r <? D) eqn:C.
  - apply Z.ltb_lt in C. lia.
  - apply Z.ltb_ge in C. lia.
Qed.

Lemma round_half_expand_unique (N D r : Z) :
  0 < D -> - D <= 2 * (N - r * D) < D -> round_half_expand N D = r.
Proof.
  intros HD H. pose proof (round_half_expand_bounds N D HD) as B.
  set (M := round_half_expand N D) in *. clearbody M. nia.
Qed.

Lemma round_half_even_scale (c N D : Z) :
  0 < c -> 0 < D -> round_half_even (c * N) (c * D) = round_half_even N D.
Proof.
  intros Hc HD. unfold round_half_even.
  rewrite Z.div_mul_cancel_l, Z.mul_mod_distr_l by lia.
  replace (2 * (c * (N mod D))) with (c * (2 * (N mod D))) by lia.
  rewrite <- (Zmult_compare_compat_l (2 * (N mod D)) D c) by lia. reflexivity.
Qed.

Lemma ge_pow2_scale (c A B g : Z) :
  0 < c -> ge_pow2 (c * A) (c * B) g = ge_pow2 A B g.
Proof.
  intros Hc. unfold ge_pow2. destruct (0 <=? g).
  - apply eq_true_iff_eq. rewrite !Z.leb_le. nia.
  - apply eq_true_iff_eq. rewrite !Z.leb_le. nia.
Qed.

Lemma magnitude_scale (c A B : Z) :
  0 < c -> 0 < A -> 0 < B -> magnitude (c * A) (c * B) = magnitude A B.
Proof.
  intros Hc HA HB. apply magnitude_unique; try nia;
    rewrite ge_pow2_scale by assumption; apply magnitude_spec; assumption.
Qed.

Lemma of_rational_scale (c A B : Z) :
  0 < c -> 0 < A -> 0 < B -> of_rational (c * A) (c * B) = of_rational A B.
Proof.
  intros Hc HA HB. unfold of_rational.
  rewrite magnitude_scale by assumption.
  assert (forall e, significand (c * A) (c * B) e = significand A B e) as ->; [|reflexivity].
  intros e. unfold significand. destruct (0 <=? e) eqn:E.
  - apply Z.leb_le in E. rewrite <- Z.mul_assoc. apply round_half_even_scale; [lia|].
    assert (0 < 2 ^ e) by (apply Z.pow_pos_nonneg; lia). nia.
  - rewrite <- Z.mul_assoc. apply round_half_even_scale; lia.
Qed.

(** *** The shape of a rounded quotient *)

Lemma significand_eq (A B e : Z) :
  significand A B e = round_half_even (scaled_num A e) (scaled_den B e).
Proof. unfold significand, scaled_num, scaled_den. now destruct (0 <=? e). Qed.

Lemma scaled_den_pos (B e : Z) : 0 < B -> 0 < scaled_den B e.
Proof.
  intros HB. unfold scaled_den. destruct (0 <=? e) eqn:E; [|assumption].
  apply Z.leb_le in E. assert (0 < 2 ^ e) by (apply Z.pow_pos_nonneg; lia). nia.
Qed.

Lemma ge_pow2_scaled (A B h e : Z) :
  0 <= h - e ->
  ge_pow2 A B h = (scaled_den B e * 2 ^ (h - e) <=? scaled_num A e).
Proof.
  intros H. unfold scaled_num, scaled_den. destruct (0 <=? e) eqn:E.
  - apply Z.leb_le in E. rewrite (ge_pow2_shift A B h 0) by lia.
    rewrite Z.add_0_r. change (2 ^ 0) with 1. rewrite Z.mul_1_r.
    replace h with (e + (h - e)) at 1 by lia. rewrite Z.pow_add_r by lia.
    now rewrite Z.mul_assoc.
  - apply Z.leb_gt in E. rewrite (ge_pow2_shift A B h (- e)) by lia.
    now replace (h + - e) with (h - e) by lia.
Qed.

Lemma significand_bounds (A B : Z) :
  0 < A -> 0 < B ->
  let g := magnitude A B in
  let e := fexp prec emax g in
  0 <= significand A B e <= 2 ^ 53
  /\ (e = g - 53 -> 2 ^ 52 <= significand A B e)
  /\ (g - 53 < e -> significand A B e <= 2 ^ 52).
Proof.
  intros HA HB g e.
  destruct (magnitude_spec A B HA HB) as [Lo Hi]. fold g in Lo, Hi.
  rewrite significand_eq.
  pose proof (scaled_den_pos B e HB) as HD.
  pose proof (round_half_even_bounds (scaled_num A e) (scaled_den B e) HD) as R.
  assert (0 <= scaled_num A e) as HN.
  { unfold scaled_num. destruct (0 <=? e); [lia|].
    apply Z.mul_nonneg_nonneg; [lia | apply Z.pow_nonneg; lia]. }
  set (N := scaled_num A e) in *. set (D := scaled_den B e) in *.
  set (M := round_half_even N D) in *. clearbody M.
  assert (e = g - 53 \/ (e = -1074 /\ g - 53 < e)) as [Ee|[Ee Hs]]
    by (unfold e, fexp, SpecFloat.emin, prec, emax; lia).
  - rewrite (ge_pow2_scaled A B (g - 1) e) in Lo by lia.
    rewrite (ge_pow2_scaled A B g e) in Hi by lia. fold N D in Lo, Hi.
    replace (g - 1 - e) with 52 in Lo by lia. replace (g - e) with 53 in Hi by lia.
    apply Z.leb_le in Lo. apply Z.leb_gt in Hi.
    repeat split; try nia.
  - assert (N < D * 2 ^ 52) as Hlt.
    { destruct (Z.le_gt_cases 0 (g - e)) as [Hge|Hge].
      - rewrite (ge_pow2_scaled A B g e) in Hi by lia. fold N D in Hi.
        apply Z.leb_gt in Hi.
        assert (2 ^ (g - e) <= 2 ^ 52) by (apply Z.pow_le_mono_r; lia). nia.
      - assert (ge_pow2 A B e = false) as Hi'.
        { destruct (ge_pow2 A B e) eqn:X; [|reflexivity].
          rewrite (ge_pow2_mono A B e g) in Hi by (assumption || lia). discriminate. }
        rewrite (ge_pow2_scaled A B e e) in Hi' by lia. fold N D in Hi'.
        rewrite Z.sub_diag in Hi'. apply Z.leb_gt in Hi'. simpl in Hi'. nia. }
    repeat split; try nia.
Qed.

Lemma log2_pow2_range (M k : Z) : 0 <= k -> 2 ^ k <= M < 2 ^ (k + 1) -> Z.log2 M = k.
Proof. intros Hk H. apply Z.log2_unique; [assumption|]. now replace (Z.succ k) with (k + 1) by lia. Qed.

(** A positive quotient rounds to zero, to infinity, or to the finite
    number whose significand and exponent [of_rational] computes. *)
Lemma of_rational_shape (A B : Z) :
  0 < A -> 0 < B ->
  let e := fexp prec emax (magnitude A B) in
  let M := significand A B e in
  (M = 0 /\ of_rational A B = zero)
  \/ (0 < M /\ exists m' e',
        ((M = 2 ^ 53 /\ Zpos m' = 2 ^ 52 /\ e' = e + 1)
         \/ (M < 2 ^ 53 /\ Zpos m' = M /\ e' = e))
        /\ ((971 < e' /\ of_rational A B = Infinity)
            \/ (e' <= 971 /\ Prim2SF (of_rational A B) = S754_finite false m' e'))).
Proof.
  intros HA HB e M.
  destruct (significand_bounds A B HA HB) as (Hb & Hn & Hs).
  fold e in Hb, Hn, Hs. fold M in Hb, Hn, Hs.
  assert (-1074 <= e) as He by (unfold e, fexp, SpecFloat.emin, prec, emax; lia).
  assert (e = magnitude A B - 53 \/ magnitude A B - 53 < e) as Hc
    by (unfold e, fexp, SpecFloat.emin, prec, emax; lia).
  unfold of_rational. fold e. fold M.
  destruct (Z.eqb_spec M 0) as [E0|E0]; [left; auto|]. right.
  split; [lia|].
  assert (forall (m' : positive) (e' : Z),
            -1074 <= e' -> Z.pos m' < 2 ^ 53 ->
            (e' = -1074 \/ 2 ^ 52 <= Z.pos m') ->
            (971 < e' /\ (if emax - prec <? e' then Infinity
                          else SF2Prim (S754_finite false m' e')) = Infinity)
            \/ (e' <= 971 /\
                Prim2SF (if emax - prec <? e' then Infinity
                         else SF2Prim (S754_finite false m' e'))
                = S754_finite false m' e')) as Fin.
  { intros m' e' He' Hm' Hn'.
    destruct (emax - prec <? e') eqn:O.
    - left. apply Z.ltb_lt in O. unfold emax, prec in O. split; [lia | reflexivity].
    - right. apply Z.ltb_ge in O. unfold emax, prec in O. split; [lia|].
      apply Prim2SF_SF2Prim. simpl. unfold bounded, canonical_mantissa.
      rewrite digits2_log2. apply andb_true_intro. split.
      + apply Z.eqb_eq.
        pose proof (Z.log2_spec (Z.pos m') eq_refl) as [Ll Lu].
        pose proof (Z.log2_nonneg (Z.pos m')).
        assert (Z.log2 (Z.pos m') <= 52).
        { destruct (Z.le_gt_cases (Z.log2 (Z.pos m')) 52) as [?|G]; [assumption|].
          assert (2 ^ 53 <= 2 ^ Z.log2 (Z.pos m')) by (apply Z.pow_le_mono_r; lia). lia. }
        destruct Hn' as [->|Hn'].
        * unfold fexp, SpecFloat.emin, prec, emax. lia.
        * rewrite (log2_pow2_range (Z.pos m') 52) by lia.
          unfold fexp, SpecFloat.emin, prec, emax. lia.
      + apply Z.leb_le. unfold emax, prec. lia. }
  change (2 ^ prec) with (2 ^ 53). change (2 ^ (prec - 1)) with (2 ^ 52).
  destruct (Z.eqb_spec M (2 ^ 53)) as [E53|E53].
  - exists (Z.to_pos (2 ^ 52)), (e + 1). split; [left; repeat split; auto|].
    apply Fin; first [lia | right; reflexivity].
  - exists (Z.to_pos M), e. rewrite Z2Pos.id by lia.
    split; [right; repeat split; lia|].
    apply Fin; rewrite ?Z2Pos.id by lia; try lia.
    destruct Hc as [Hc|Hc]; [right; apply Hn, Hc | left].
    revert Hc. unfold e, fexp, SpecFloat.emin, prec, emax. lia.
Qed.

(** *** Formatting to three fraction digits, reading, formatting again *)

Lemma valid_finite (ax : number) (m : positive) (e : Z) :
  Prim2SF ax = S754_finite false m e ->
  fexp prec emax (Z.log2 (Z.pos m) + 1 + e) = e /\ e <= 971 /\ Z.pos m < 2 ^ 53.
Proof.
  intros E.
  pose proof (Prim2SF_valid ax) as V. rewrite E in V. simpl in V.
  apply andb_prop in V as [C Hb]. unfold canonical_mantissa in C.
  apply Z.eqb_eq in C. apply Z.leb_le in Hb. rewrite digits2_log2 in C.
  pose proof (Z.log2_spec (Zpos m) eq_refl) as [Lm Um].
  pose proof (Z.log2_nonneg (Zpos m)) as Hl.
  repeat split; [exact C | exact Hb |].
  eapply Z.lt_le_trans; [exact Um|]. apply Z.pow_le_mono_r; [lia|].
  revert C. unfold fexp, SpecFloat.emin, prec, emax. lia.
Qed.

Lemma scaled_neg (m e : Z) (f : nat) :
  e < 0 -> scaled m e f = round_half_expand (m * 10 ^ Z.of_nat f) (2 ^ (- e)).
Proof. intros H. unfold scaled. now replace (0 <=? e) with false by (symmetry; apply Z.leb_gt; lia). Qed.

(** A value that is a multiple of [2^e] with [-9 <= e < 0] and a full
    significand is the number nearest to itself rounded to thousandths. *)
Lemma of_rational_thousandths_near (m : positive) (e : Z) :
  - 9 <= e < 0 -> 2 ^ 52 <= Z.pos m < 2 ^ 53 ->
  of_rational (scaled (Z.pos m) e 3) 1000 = SF2Prim (S754_finite false m e).
Proof.
  intros He Hm. rewrite scaled_neg by lia. change (10 ^ Z.of_nat 3) with 1000.
  set (P := 2 ^ (- e)).
  assert (2 <= P <= 512) as HP.
  { unfold P. split.
    - change 2 with (2 ^ 1) at 1. apply Z.pow_le_mono_r; lia.
    - change 512 with (2 ^ 9). apply Z.pow_le_mono_r; lia. }
  assert (2 ^ 52 = P * 2 ^ (52 + e)) as H52
    by (unfold P; rewrite <- Z.pow_add_r by lia; f_equal; lia).
  assert (0 < 2 ^ (52 + e)) as HQ by (apply Z.pow_pos_nonneg; lia).
  set (Q := 2 ^ (52 + e)) in *.
  pose proof (round_half_expand_bounds (Z.pos m * 1000) P ltac:(lia)) as Hr.
  set (r := round_half_expand (Z.pos m * 1000) P) in *. clearbody r.
  assert (2 ^ 53 = 2 * 2 ^ 52) as H53 by reflexivity.
  assert (1000 * 2 ^ 52 <= r * P) as Lo.
  { destruct (Z.le_gt_cases (1000 * Q) r) as [G|G].
    - rewrite H52. nia.
    - exfalso.
      assert (P * r <= P * (1000 * Q - 1)) by (apply Z.mul_le_mono_nonneg_l; lia).
      lia. }
  assert (r * P < 1000 * 2 ^ 53) as Hi by lia.
  assert (0 < r) as Hr0 by nia.
  assert (magnitude r 1000 = 53 + e) as Mg.
  { apply magnitude_unique; try lia.
    - rewrite (ge_pow2_shift r 1000 _ (- e)) by lia.
      replace (53 + e - 1 + - e) with 52 by lia. fold P. apply Z.leb_le. lia.
    - rewrite (ge_pow2_shift r 1000 _ (- e)) by lia.
      replace (53 + e + - e) with 53 by lia. fold P. apply Z.leb_gt. lia. }
  unfold of_rational. rewrite Mg.
  replace (fexp prec emax (53 + e)) with e
    by (unfold fexp, SpecFloat.emin, prec, emax; lia).
  assert (significand r 1000 e = Z.pos m) as ->.
  { unfold significand.
    replace (0 <=? e) with false by (symmetry; apply Z.leb_gt; lia). fold P.
    apply round_half_even_unique; lia. }
  replace (Z.pos m =? 0) with false by (symmetry; apply Z.eqb_neq; lia).
  replace (Z.pos m =? 2 ^ prec) with false
    by (symmetry; apply Z.eqb_neq; change (2 ^ prec) with (2 ^ 53); lia).
  replace (emax - prec <? e) with false
    by (symmetry; apply Z.ltb_ge; unfold emax, prec; lia).
  reflexivity.
Qed.

(** Below [2^43] the thousandths survive the rounding to a number. *)
Lemma of_rational_thousandths_far (r : Z) :
  0 < r < 1000 * 2 ^ 43 ->
  exists m' e',
    Prim2SF (of_rational r 1000) = S754_finite false m' e'
    /\ scaled (Z.pos m') e' 3 = r.
Proof.
  intros Hr.
  destruct (magnitude_spec r 1000 ltac:(lia) ltac:(lia)) as [Lo Hi].
  assert (ge_pow2 r 1000 43 = false) as F.
  { unfold ge_pow2. change (0 <=? 43) with true. cbv iota. apply Z.leb_gt. lia. }
  assert (magnitude r 1000 <= 43) as Hg.
  { destruct (Z.le_gt_cases (magnitude r 1000) 43) as [?|G]; [assumption|].
    rewrite (ge_pow2_mono r 1000 (magnitude r 1000 - 1) 43) in F
      by (assumption || lia).
    discriminate. }
  destruct (of_rational_shape r 1000 ltac:(lia) ltac:(lia)) as [[M0 _]|(Mp & m' & e' & N & O)].
  - exfalso. revert M0.
    set (e := fexp prec emax (magnitude r 1000)).
    assert (-1074 <= e <= -10) as He
      by (unfold e, fexp, SpecFloat.emin, prec, emax; lia).
    unfold significand.
    replace (0 <=? e) with false by (symmetry; apply Z.leb_gt; lia).
    pose proof (round_half_even_bounds (r * 2 ^ (- e)) 1000 ltac:(lia)) as R.
    assert (2 ^ 10 <= 2 ^ (- e)) by (apply Z.pow_le_mono_r; lia).
    change (2 ^ 10) with 1024 in *. intros M0. rewrite M0 in R. nia.
  - set (e := fexp prec emax (magnitude r 1000)) in *.
    assert (-1074 <= e <= -10) as He
      by (unfold e, fexp, SpecFloat.emin, prec, emax; lia).
    exists m', e'.
    assert (2 ^ 10 <= 2 ^ (- e)) as HP by (apply Z.pow_le_mono_r; lia).
    change (2 ^ 10) with 1024 in HP.
    assert (- 1000 <= 2 * (significand r 1000 e * 1000 - r * 2 ^ (- e)) <= 1000) as R.
    { unfold significand.
      replace (0 <=? e) with false by (symmetry; apply Z.leb_gt; lia).
      pose proof (round_half_even_bounds (r * 2 ^ (- e)) 1000 ltac:(lia)). lia. }
    set (M := significand r 1000 e) in *. clearbody M.
    set (P := 2 ^ (- e)) in *.
    assert (e' <= 971) as He' by (destruct N as [(_ & _ & ->)|(_ & _ & ->)]; lia).
    destruct O as [[O _]|[_ O]]; [lia|]. split; [exact O|].
    destruct N as [(E53 & Em & ->)|(L53 & Em & ->)].
    + rewrite scaled_neg by lia. rewrite Em. change (10 ^ Z.of_nat 3) with 1000.
      assert (P = 2 * 2 ^ (- (e + 1))) as EP.
      { unfold P. replace (- e) with (Z.succ (- (e + 1))) by lia.
        rewrite Z.pow_succ_r by lia. reflexivity. }
      assert (2 ^ 53 = 2 * 2 ^ 52) as H53 by reflexivity.
      apply round_half_expand_unique; nia.
    + rewrite scaled_neg by lia. rewrite Em. change (10 ^ Z.of_nat 3) with 1000.
      fold P. apply round_half_expand_unique; nia.
Qed.

(** A number formatted to thousandths and read again formats to the same
    thousandths. *)
Lemma thousandths_round_trip (ax : number) (m : positive) (e : Z) :
  Prim2SF ax = S754_finite false m e ->
  0 < scaled (Z.pos m) e 3 ->
  exists m' e',
    Prim2SF (of_rational (scaled (Z.pos m) e 3) 1000) = S754_finite false m' e'
    /\ scaled (Z.pos m') e' 3 = scaled (Z.pos m) e 3.
Proof.
  intros E Hr.
  destruct (valid_finite ax m e E) as (C & Hb & Hm).
  pose proof (Z.log2_spec (Zpos m) eq_refl) as [Lm Um].
  pose proof (Z.log2_nonneg (Zpos m)) as Hl.
  destruct (Z.le_gt_cases 0 e) as [He|He].
  - exists m, e. split; [|reflexivity].
    pose proof (of_decimal_exact ax m e E) as X.
    apply Z.leb_le in He as He'. rewrite He' in X.
    unfold scaled. rewrite He'. change (10 ^ Z.of_nat 3) with 1000.
    assert (0 < 2 ^ e) by (apply Z.pow_pos_nonneg; lia).
    replace (Z.pos m * 2 ^ e * 1000) with (1000 * (Z.pos m * 2 ^ e)) by lia.
    change 1000 with (1000 * 1) at 2.
    rewrite of_rational_scale by nia.
    unfold of_decimal in X.
    replace (Z.pos m * 2 ^ e =? 0) with false in X by (symmetry; apply Z.eqb_neq; nia).
    change (0 <=? 0) with true in X. cbv iota in X.
    change (10 ^ 0) with 1 in X. rewrite Z.mul_1_r in X. rewrite X. exact E.
  - destruct (Z.le_gt_cases (- 9) e) as [H9|H9].
    + exists m, e. split; [|reflexivity].
      rewrite of_rational_thousandths_near.
      * rewrite <- E. now rewrite SF2Prim_Prim2SF.
      * lia.
      * split; [|exact Hm].
        assert (Z.log2 (Z.pos m) = 52) as L52
          by (revert C; unfold fexp, SpecFloat.emin, prec, emax; lia).
        now rewrite L52 in Lm.
    + assert (scaled (Z.pos m) e 3 <= 1000 * 2 ^ 43) as Hle.
      { rewrite scaled_neg by lia. change (10 ^ Z.of_nat 3) with 1000.
        assert (2 ^ 10 <= 2 ^ (- e)) as HP by (apply Z.pow_le_mono_r; lia).
        change (2 ^ 10) with 1024 in HP.
        pose proof (round_half_expand_bounds (Z.pos m * 1000) (2 ^ (- e)) ltac:(lia)) as R.
        set (P := 2 ^ (- e)) in *.
        set (r := round_half_expand (Z.pos m * 1000) P) in *. clearbody r.
        assert (2 ^ 53 = 1024 * 2 ^ 43) as H53 by reflexivity.
        destruct (Z.le_gt_cases r (1000 * 2 ^ 43)) as [?|G]; [assumption|].
        exfalso.
        assert ((1000 * 2 ^ 43 + 1) * P <= r * P) by (apply Z.mul_le_mono_nonneg_r; lia).
        assert (1000 * 2 ^ 43 * 1024 <= 1000 * 2 ^ 43 * P)
          by (apply Z.mul_le_mono_nonneg_l; lia).
        lia. }
      destruct (Z.eq_dec (scaled (Z.pos m) e 3) (1000 * 2 ^ 43)) as [->|Hne].
      * eexists. eexists. split; vm_compute; reflexivity.
      * apply of_rational_thousandths_far. lia.
Qed.

End RoundingFacts.

Import RoundingFacts.

(** ** The withdrawal dialog *)

Module ScriptFacts.

Lemma fixed_chars (w : nat) (n : Z) (rest : string) :
  forallb digit_or_comma (list_ascii_of_string rest) = true ->
  forallb digit_or_comma (list_ascii_of_string (fixed w n rest)) = true.
Proof.
  revert n rest. induction w as [|w IH]; intros n rest H; simpl; [assumption|].
  apply IH. simpl. rewrite H, andb_true_r. unfold digit_or_comma.
  destruct (digit_char_digit (n mod 10)) as [-> _]; [|reflexivity].
  apply Z.mod_pos_bound. lia.
Qed.

Lemma pairs_chars (l : list ascii) :
  forallb digit_or_comma l = true -> forallb digit_or_comma (pairs l) = true.
Proof.
  assert (forall n l, (List.length l <= n)%nat ->
            forallb digit_or_comma l = true ->
            forallb digit_or_comma (pairs l) = true) as G.
  { induction n as [|n IH]; intros [|a [|b [|c r]]] Hn H; simpl in *;
      try reflexivity; try assumption; try lia.
    apply andb_prop in H as [Ha H]. apply andb_prop in H as [Hb H].
    rewrite Ha, Hb. simpl. apply (IH (c :: r)); [simpl; lia | exact H]. }
  apply (G (List.length l)). lia.
Qed.

Lemma forallb_rev {A} (f : A -> bool) (l : list A) :
  forallb f (rev l) = forallb f l.
Proof.
  induction l as [|a l IH]; simpl; [reflexivity|].
  rewrite forallb_app, IH. simpl. rewrite andb_true_r. apply andb_comm.
Qed.

Lemma group_chars (ds : string) :
  forallb digit_or_comma (list_ascii_of_string ds) = true ->
  forallb digit_or_comma (list_ascii_of_string (group ds)) = true.
Proof.
  intros H. unfold group.
  destruct (rev (list_ascii_of_string ds)) as [|a [|b [|c [|d r]]]] eqn:E;
    try assumption.
  rewrite list_ascii_of_string_of_list_ascii, forallb_rev.
  rewrite <- forallb_rev, E in H. simpl in H.
  apply andb_prop in H as [Ha H]. apply andb_prop in H as [Hb H].
  apply andb_prop in H as [Hc H].
  cbn [forallb]. rewrite Ha, Hb, Hc. simpl. apply (pairs_chars (d :: r)), H.
Qed.

Lemma fraction_digits_none (s : string) :
  forallb (fun c => negb (Ascii.eqb c ".")) (list_ascii_of_string s) = true ->
  fraction_digits s = None.
Proof.
  induction s as [|c r IH]; simpl; [reflexivity|].
  intros H. apply andb_prop in H as [Hc H].
  destruct (Ascii.eqb c "."); [discriminate|]. now apply IH.
Qed.

Lemma digit_or_comma_not_point (l : list ascii) :
  forallb digit_or_comma l = true ->
  forallb (fun c => negb (Ascii.eqb c ".")) l = true.
Proof.
  induction l as [|c l IH]; simpl; [reflexivity|].
  intros H. apply andb_prop in H as [Hc H]. rewrite (IH H), andb_true_r.
  destruct (Ascii.eqb_spec c "."); [subst; discriminate | reflexivity].
Qed.

Lemma list_ascii_of_string_app (a b : string) :
  list_ascii_of_string (a ++ b) = (list_ascii_of_string a ++ list_ascii_of_string b)%list.
Proof. induction a as [|c a IH]; simpl; [reflexivity | now rewrite IH]. Qed.

(** C8, as stated, fails: 1234.5 is shown as "1,235", not with two
    fraction digits. *)
Lemma formatNumber_two_fraction_digits_fails :
  formatNumber 1234.5%float = "1,235"
  /\ fraction_digits (formatNumber 1234.5%float) <> Some 2%nat.
Proof. split; [reflexivity | discriminate]. Qed.

Section Validation.

Variable toLocaleString : number -> string.

Lemma validateWithdrawal_dialog employeeId employeeName totalSalary withdrawn v p :
  let remaining := (totalSalary - withdrawn)%float in
  let amount := parseFloat v in
  let page := dialog employeeId employeeName totalSalary withdrawn v p in
  validateWithdrawal toLocaleString page =
  if gt amount remaining
  then (false, alert (exceeds_message toLocaleString (remaining + 0)%float) page)
  else if le amount 0%float then (false, alert invalid_message page)
  else (true, page).
Proof.
  intros remaining amount page. unfold validateWithdrawal.
  change (withdrawal_amount_value page) with v.
  change (withdrawal_amount_max page) with (numberToString remaining).
  rewrite parseFloat_numberToString, gt_plus_zero. reflexivity.
Qed.

(** C2. With the dialog open for an employee and an amount typed in,
    validation fails if and only if the amount is [<= 0] or exceeds the
    remaining balance; every amount above the remaining balance is
    rejected, every amount with [0 < amount <= remaining] is accepted; a
    rejection leaves the page as it was, one alert apart. *)
Theorem validateWithdrawal_rejects_iff employeeId employeeName totalSalary withdrawn v p :
  let remaining := (totalSalary - withdrawn)%float in
  let amount := parseFloat v in
  let page := dialog employeeId employeeName totalSalary withdrawn v p in
  (fst (validateWithdrawal toLocaleString page) = false
     <-> (le amount 0%float = true \/ gt amount remaining = true))
  /\ (gt amount remaining = true -> fst (validateWithdrawal toLocaleString page) = false)
  /\ (lt 0%float amount = true /\ le amount remaining = true ->
      fst (validateWithdrawal toLocaleString page) = true)
  /\ (fst (validateWithdrawal toLocaleString page) = false ->
      exists msg, snd (validateWithdrawal toLocaleString page) = alert msg page).
Proof.
  intros remaining amount page.
  pose proof (validateWithdrawal_dialog employeeId employeeName totalSalary
                withdrawn v p) as E.
  cbv zeta in E. fold remaining amount page in E. rewrite E. clear E.
  destruct (gt amount remaining) eqn:G, (le amount 0%float) eqn:L; simpl;
    repeat split; intros; try tauto; try discriminate; eauto;
    try (destruct H as [H1 H2]);
    try (apply lt_not_ge in H1; congruence);
    try (apply le_not_gt in H2; congruence).
  destruct H; discriminate.
Qed.

(** C4. When the typed amount exceeds the remaining balance,
    [validateWithdrawal] returns false and the alert it shows spells out
    the remaining balance, formatted in the locale of the host and read
    from the page alone. *)
Theorem validateWithdrawal_exceeds_message employeeId employeeName totalSalary withdrawn v p :
  let remaining := (totalSalary - withdrawn)%float in
  let page := dialog employeeId employeeName totalSalary withdrawn v p in
  gt (parseFloat v) remaining = true ->
  validateWithdrawal toLocaleString page
  = (false,
     alert ("Withdrawal amount cannot exceed remaining balance (Rs "
            ++ toLocaleString (remaining + 0)%float ++ ")") page).
Proof.
  intros remaining page H.
  pose proof (validateWithdrawal_dialog employeeId employeeName totalSalary
                withdrawn v p) as E.
  cbv zeta in E. fold remaining page in E. rewrite E, H. reflexivity.
Qed.

(** C5. For an employee whose withdrawals already exceed the salary
    ([remaining < 0]), every withdrawal of a positive amount fails
    validation, and the page is as before, one alert apart. *)
Theorem validateWithdrawal_overdrawn employeeId employeeName totalSalary withdrawn v p :
  let remaining := (totalSalary - withdrawn)%float in
  let page := dialog employeeId employeeName totalSalary withdrawn v p in
  lt remaining 0%float = true ->
  lt 0%float (parseFloat v) = true ->
  fst (validateWithdrawal toLocaleString page) = false
  /\ exists msg, snd (validateWithdrawal toLocaleString page) = alert msg page.
Proof.
  intros remaining page Hr Hv.
  pose proof (validateWithdrawal_dialog employeeId employeeName totalSalary
                withdrawn v p) as E.
  cbv zeta in E. fold remaining page in E. rewrite E.
  assert (gt (parseFloat v) remaining = true) as ->
    by (apply (lt_through_zero remaining (parseFloat v)); assumption).
  split; [reflexivity | eauto].
Qed.

(** C9. An amount that parses to NaN passes validation:
    [validateWithdrawal] returns true and shows nothing. *)
Theorem validateWithdrawal_accepts_NaN (p : Page) :
  isNaN (parseFloat (withdrawal_amount_value p)) = true ->
  validateWithdrawal toLocaleString p = (true, p).
Proof.
  intros H. apply isNaN_spec in H. unfold validateWithdrawal.
  rewrite H, NaN_not_gt, NaN_not_le. reflexivity.
Qed.

End Validation.

Lemma validateWithdrawal_exceeds_message_witness :
  validateWithdrawal (toLocaleString_en_IN 3)
    (dialog (VNumber 7%float) (VString "Asha") 30000%float 10000%float "25000" blank)
  = (false,
     alert "Withdrawal amount cannot exceed remaining balance (Rs 20,000)"
       (dialog (VNumber 7%float) (VString "Asha") 30000%float 10000%float "25000" blank)).
Proof.
  apply (validateWithdrawal_exceeds_message (toLocaleString_en_IN 3)
           (VNumber 7%float) (VString "Asha") 30000%float 10000%float "25000" blank).
  vm_compute. reflexivity.
Defined.

Lemma validateWithdrawal_overdrawn_witness :
  fst (validateWithdrawal (toLocaleString_en_IN 3)
         (dialog (VNumber 7%float) (VString "Asha") 20000%float 25000%float "100" blank)) = false
  /\ exists msg,
      snd (validateWithdrawal (toLocaleString_en_IN 3)
             (dialog (VNumber 7%float) (VString "Asha") 20000%float 25000%float "100" blank))
      = alert msg (dialog (VNumber 7%float) (VString "Asha") 20000%float 25000%float "100" blank).
Proof.
  apply (validateWithdrawal_overdrawn (toLocaleString_en_IN 3)
           (VNumber 7%float) (VString "Asha") 20000%float 25000%float "100" blank);
    vm_compute; reflexivity.
Defined.

Lemma validateWithdrawal_accepts_NaN_witness :
  validateWithdrawal (toLocaleString_en_IN 3)
    (dialog (VNumber 7%float) (VString "Asha") 30000%float 10000%float "" blank)
  = (true, dialog (VNumber 7%float) (VString "Asha") 30000%float 10000%float "" blank).
Proof.
  apply (validateWithdrawal_accepts_NaN (toLocaleString_en_IN 3)
           (dialog (VNumber 7%float) (VString "Asha") 30000%float 10000%float "" blank)).
  vm_compute. reflexivity.
Defined.

End ScriptFacts.

(** ** The built-ins and the dialog on concrete inputs *)

Module ScriptExamples.

Example parseFloat_samples :
  map parseFloat ["20000"; "  12.5abc"; "-.5e1"; "5."; "1e"; "0x10"; "12,345"; "-Infinity"]
  = [20000; 12.5; -5; 5; 1; 0; 12; neg_infinity]%float
  /\ map (fun s => isNaN (parseFloat s)) [""; "abc"; "."; "-"; "e5"]
     = [true; true; true; true; true].
Proof. split; vm_compute; reflexivity. Qed.

Example ToNumber_samples :
  map ToNumber [""; "  "; " 12.5 "; "0x10"; "0b101"; "5."; "-0.5"]
  = [0; 0; 12.5; 16; 5; 5; -0.5]%float
  /\ map (fun s => isNaN (ToNumber s)) ["abc"; "12.5abc"; "12,345"; "0x"; "-0x10"; "1e"]
     = [true; true; true; true; true; true].
Proof. split; vm_compute; reflexivity. Qed.

Example numberToString_samples :
  map numberToString [20000; 0.5; -12.5; 1e21; 9007199254740992; (0.5 - 0.75);
                      nan; neg_infinity; -0]%float
  = ["20000"; "0.5"; "-12.5"; "1e+21"; "9007199254740992"; "-0.25"; "NaN";
     "-Infinity"; "0"]
  /\ map (fun s => numberToString (parseFloat s))
       ["0.1"; "123456789012345678901"; "0.000001"; "0.0000001"; "15e-11"; "4.35"]
     = ["0.1"; "123456789012345680000"; "0.000001"; "1e-7"; "1.5e-10"; "4.35"].
Proof. split; vm_compute; reflexivity. Qed.

Example formatNumber_samples :
  map formatNumber [30000; 1234567.5; 0.5; 2.5; 999.25; 100000; -1234.5; -0.25; nan]%float
  = ["30,000"; "12,34,568"; "1"; "3"; "999"; "1,00,000"; "-1,235"; "-0"; "NaN"].
Proof. vm_compute. reflexivity. Qed.

Example formatCurrency_samples :
  map formatCurrency ["1234567"; "12,34,567.5"; "-1234.5678"; "1e3"; " 12 "; ""; "abc"; "0x1A"]
  = ["12,34,567"; "12,34,567.5"; "-1,234.568"; "1,000"; "12"; ""; "abc"; "0"].
Proof. vm_compute. reflexivity. Qed.

(** Employee A of the specification, 30000 of salary and 10000 withdrawn,
    in the dialog. *)
Example dialog_of_A :
  let page := openWithdrawalModal (VNumber 1%float) (VString "A") 30000%float 10000%float blank in
  withdrawal_amount_max page = "20000"
  /\ salaryInfo_innerHTML page
     = heading "A" ++ total_row "30,000" ++ withdrawn_row "10,000" ++ remaining_row "20,000"
  /\ map (fun v => fst (validateWithdrawal numberToString (type_amount v page)))
       ["10000"; "20000"; "20000.01"; "25000"; "0"; "-5"; ""; "abc"]
     = [true; true; false; false; false; false; true; true].
Proof. repeat split; vm_compute; reflexivity. Qed.

End ScriptExamples.

(** ** The currency field *)

Module CurrencyFacts.

(** *** Characters *)

Lemma fixed_forallb (P : ascii -> bool) (w : nat) (n : Z) (rest : string) :
  (forall d, 0 <= d < 10 -> P (digit_char d) = true) ->
  forallb P (list_ascii_of_string rest) = true ->
  forallb P (list_ascii_of_string (fixed w n rest)) = true.
Proof.
  intros HP. revert n rest. induction w as [|w IH]; intros n rest H; simpl; [assumption|].
  apply IH. simpl. rewrite H, andb_true_r. apply HP, Z.mod_pos_bound. lia.
Qed.

Lemma digit_char_is_digit (d : Z) : 0 <= d < 10 -> is_digit (digit_char d) = true.
Proof. intros H. now destruct (digit_char_digit d H). Qed.

Lemma is_digit_no_comma (c : ascii) : is_digit c = true -> no_comma c = true.
Proof.
  intros H. unfold no_comma. destruct (Ascii.eqb_spec c ","); [subst; discriminate | reflexivity].
Qed.

Lemma digit_or_point_no_comma (c : ascii) : digit_or_point c = true -> no_comma c = true.
Proof.
  unfold digit_or_point. intros H. apply orb_prop in H as [H|H].
  - now apply is_digit_no_comma.
  - apply Ascii.eqb_eq in H. now subst.
Qed.

Lemma digit_or_point_not_space (c : ascii) : digit_or_point c = true -> is_white_space c = false.
Proof.
  unfold digit_or_point, is_digit, is_white_space. intros H.
  apply orb_prop in H as [H|H].
  - apply andb_prop in H as [H1 H2]. apply N.leb_le in H1. 
    apply orb_false_intro; [apply andb_false_intro2; apply N.leb_gt; lia | apply N.eqb_neq; lia].
  - apply Ascii.eqb_eq in H. now subst.
Qed.

Lemma forallb_impl {A} (P Q : A -> bool) (l : list A) :
  (forall a, P a = true -> Q a = true) -> forallb P l = true -> forallb Q l = true.
Proof.
  intros H. induction l as [|a l IH]; simpl; [reflexivity|].
  intros X. apply andb_prop in X as [Xa Xl]. now rewrite (H a Xa), (IH Xl).
Qed.

Lemma decimal_digits (n : Z) : forallb is_digit (list_ascii_of_string (decimal n)) = true.
Proof. unfold decimal. apply fixed_forallb; [apply digit_char_is_digit | reflexivity]. Qed.

(** *** Removing the commas *)

Lemma remove_commas_filter (s : string) :
  remove_commas s = string_of_list_ascii (List.filter no_comma (list_ascii_of_string s)).
Proof.
  induction s as [|c s IH]; simpl; [reflexivity|]. unfold no_comma at 1.
  destruct (Ascii.eqb c ","); simpl; now rewrite IH.
Qed.

Lemma filter_id {A} (P : A -> bool) (l : list A) :
  forallb P l = true -> List.filter P l = l.
Proof.
  induction l as [|a l IH]; simpl; [reflexivity|].
  intros H. apply andb_prop in H as [Ha Hl]. now rewrite Ha, (IH Hl).
Qed.

Lemma remove_commas_id (s : string) :
  forallb no_comma (list_ascii_of_string s) = true -> remove_commas s = s.
Proof.
  intros H. rewrite remove_commas_filter, (filter_id _ _ H).
  apply string_of_list_ascii_of_string.
Qed.

Lemma remove_commas_app (a b : string) :
  remove_commas (a ++ b) = remove_commas a ++ remove_commas b.
Proof.
  induction a as [|c a IH]; simpl; [reflexivity|].
  destruct (Ascii.eqb c ","); simpl; now rewrite IH.
Qed.

Lemma filter_pairs (l : list ascii) :
  forallb no_comma l = true -> List.filter no_comma (pairs l) = l.
Proof.
  assert (forall n k, (List.length k <= n)%nat ->
            forallb no_comma k = true -> List.filter no_comma (pairs k) = k) as G.
  { clear l. induction n as [|n IH]; intros l Hn H.
    - destruct l; [reflexivity | simpl in Hn; lia].
    - destruct l as [|a [|b [|c r]]]; [reflexivity| | |].
      + simpl in *. now destruct (no_comma a).
      + simpl in *. now destruct (no_comma a), (no_comma b).
      + change (pairs (a :: b :: c :: r)) with (a :: b :: ","%char :: pairs (c :: r)).
        cbn [forallb] in H. apply andb_prop in H as [Ha H].
        apply andb_prop in H as [Hb H].
        cbn [List.filter]. rewrite Ha, Hb. change (no_comma ",") with false. cbv iota.
        do 2 f_equal. apply IH; [simpl in *; lia | exact H]. }
  apply (G (List.length l)). lia.
Qed.

Lemma filter_no_comma_rev (l : list ascii) :
  List.filter no_comma (rev l) = rev (List.filter no_comma l).
Proof.
  induction l as [|x l IH]; [reflexivity|]. simpl. rewrite filter_app, IH. simpl.
  destruct (no_comma x); simpl; [reflexivity | now rewrite app_nil_r].
Qed.

Lemma remove_commas_group (ds : string) :
  forallb no_comma (list_ascii_of_string ds) = true ->
  remove_commas (group ds) = ds.
Proof.
  intros H. unfold group.
  destruct (rev (list_ascii_of_string ds)) as [|a [|b [|c [|d r]]]] eqn:E;
    try (now apply remove_commas_id).
  rewrite remove_commas_filter, list_ascii_of_string_of_list_ascii.
  assert (forallb no_comma (a :: b :: c :: d :: r) = true) as Hr.
  { rewrite <- E. rewrite forallb_forall in *. intros x I. apply H.
    now apply in_rev. }
  cbn [forallb] in Hr. apply andb_prop in Hr as [Ha Hr].
  apply andb_prop in Hr as [Hb Hr]. apply andb_prop in Hr as [Hc Hr].
  assert (List.filter no_comma (a :: b :: c :: ","%char :: pairs (d :: r))
          = a :: b :: c :: d :: r) as F.
  { cbn [List.filter]. rewrite Ha, Hb, Hc. change (no_comma ",") with false.
    cbv iota. do 3 f_equal. apply (filter_pairs (d :: r)). exact Hr. }
  rewrite filter_no_comma_rev, F, <- E, rev_involutive.
  apply string_of_list_ascii_of_string.
Qed.

(** *** The fraction digits *)

Lemma strip_zeros_spec (f : nat) (s p : Z) :
  0 < s ->
  let '(d, z) := strip_zeros f s p in
  0 < d /\ p <= z <= p + Z.of_nat f /\ s = d * 10 ^ (z - p).
Proof.
  revert s p. induction f as [|f IH]; intros s p Hs; simpl.
  - rewrite Z.sub_diag. simpl. lia.
  - replace (0 <? s) with true by (symmetry; apply Z.ltb_lt; lia). simpl.
    destruct (Z.eqb_spec (s mod 10) 0) as [E|E].
    + assert (s = 10 * (s / 10)) as Es
        by (pose proof (Z.div_mod s 10 ltac:(lia)); lia).
      specialize (IH (s / 10) (p + 1) ltac:(lia)).
      destruct (strip_zeros f (s / 10) (p + 1)) as [d z].
      destruct IH as (Hd & Hz & Ed). repeat split; try lia.
      replace (z - p) with (Z.succ (z - (p + 1))) by lia.
      rewrite Z.pow_succ_r by lia. lia.
    + rewrite Z.sub_diag. simpl. lia.
Qed.

Lemma append_empty_r (s : string) : s ++ "" = s.
Proof. induction s as [|c s IH]; [reflexivity |]. change (String c (s ++ "") = String c s). now f_equal. Qed.

(** The thousandths [r], printed without commas, read as the number
    nearest to [r / 1000]. *)
Lemma literal_thousandths (r : Z) :
  0 <= r ->
  literal (decimal (r / 1000) ++ fraction 3 (r mod 1000))
  = Some (if r =? 0 then zero else of_rational r 1000, "").
Proof.
  intros Hr.
  pose proof (Z.div_mod r 1000 ltac:(lia)) as Er.
  pose proof (Z.mod_pos_bound r 1000 ltac:(lia)) as Bf.
  assert (0 <= r / 1000) as Hi by (apply Z.div_pos; lia).
  set (ip := r / 1000) in *. set (fr := r mod 1000) in *. clearbody ip fr.
  unfold fraction. destruct (Z.eqb_spec fr 0) as [F0|F0].
  - rewrite append_empty_r, literal_decimal by assumption. do 2 f_equal.
    unfold of_decimal. destruct (Z.eqb_spec ip 0) as [I0|I0].
    + subst. reflexivity.
    + replace (r =? 0) with false by (symmetry; apply Z.eqb_neq; lia).
      change (0 <=? 0) with true. cbv iota. change (10 ^ 0) with 1.
      rewrite Z.mul_1_r. rewrite Er, F0, Z.add_0_r.
      change 1000 with (1000 * 1) at 2. rewrite of_rational_scale by lia. reflexivity.
  - pose proof (strip_zeros_spec 3 fr 0 ltac:(lia)) as S.
    destruct (strip_zeros 3 fr 0) as [d z]. destruct S as (Hd & Hz & Ed).
    rewrite Z.sub_0_r in Ed.
    replace (r =? 0) with false by (symmetry; apply Z.eqb_neq; lia).
    assert (forall (w : nat) (c : Z),
              0 < c -> c * 10 ^ Z.of_nat w = 1000 -> fr = d * c -> (0 < w)%nat ->
              literal (decimal ip ++ "." ++ fixed w d "")
              = Some (of_rational r 1000, "")) as Gen.
    { intros w c Hc Hw Hf Hw0. rewrite literal_point by assumption. do 2 f_equal.
      assert (0 < 10 ^ Z.of_nat w) as Hp by (apply Z.pow_pos_nonneg; lia).
      rewrite Z.mod_small by nia.
      unfold of_decimal.
      replace (ip * 10 ^ Z.of_nat w + d =? 0) with false
        by (symmetry; apply Z.eqb_neq; nia).
      replace (0 <=? - Z.of_nat w) with false by (symmetry; apply Z.leb_gt; lia).
      rewrite Z.opp_involutive.
      rewrite <- (of_rational_scale c) by nia. f_equal; nia. }
    assert (z = 0 \/ z = 1 \/ z = 2 \/ z = 3) as Cz by lia.
    destruct Cz as [-> | [-> | [-> | ->]]]; simpl in Ed.
    + apply (Gen 3%nat 1); simpl; lia.
    + apply (Gen 2%nat 10); simpl; lia.
    + apply (Gen 1%nat 100); simpl; lia.
    + exfalso. lia.
Qed.

(** *** Numeric strings without white space *)

Lemma trim_end_id (s : string) :
  forallb (fun c => negb (is_white_space c)) (list_ascii_of_string s) = true ->
  trim_end s = s.
Proof.
  induction s as [|c s IH]; [reflexivity|]. cbn [list_ascii_of_string forallb trim_end].
  intros H. apply andb_prop in H as [Hc Hs]. rewrite (IH Hs).
  destruct s; [|reflexivity]. apply negb_true_iff in Hc. now rewrite Hc.
Qed.

Lemma trim_start_id (c : ascii) (s : string) :
  is_white_space c = false -> trim_start (String c s) = String c s.
Proof. intros H. cbn [trim_start]. now rewrite H. Qed.

Lemma radix_of_plain (c : ascii) : digit_or_point c = true -> radix_of c = None.
Proof.
  destruct c as [[] [] [] [] [] [] [] []]; intros H; try reflexivity; discriminate H.
Qed.

Lemma digit_not_sign (c : ascii) :
  is_digit c = true -> Ascii.eqb c "+" = false /\ Ascii.eqb c "-" = false /\ Ascii.eqb c "0" = Ascii.eqb c "0".
Proof.
  destruct c as [[] [] [] [] [] [] [] []]; intros H; try (repeat split; reflexivity); discriminate H.
Qed.

(** What [ToNumber] and [parseFloat] make of a text of digits and a point
    that starts with a digit and is a literal, with and without a minus
    sign in front. *)
Lemma plain_numbers (y : number) (c : ascii) (r : string) :
  is_digit c = true ->
  forallb digit_or_point (list_ascii_of_string (String c r)) = true ->
  literal (String c r) = Some (y, "") ->
  ToNumber (String c r) = y /\ ToNumber ("-" ++ String c r) = (- y)%float
  /\ parseFloat (String c r) = y /\ parseFloat ("-" ++ String c r) = (- y)%float.
Proof.
  intros Hc Hall Hl.
  assert (forallb (fun c => negb (is_white_space c))
            (list_ascii_of_string (String c r)) = true) as Hw.
  { eapply forallb_impl; [|exact Hall]. intros a Ha.
    now rewrite (digit_or_point_not_space a Ha). }
  assert (unsigned_decimal (String c r) = Some y) as Hu
    by (unfold unsigned_decimal; now rewrite Hl).
  destruct (digit_not_sign c Hc) as (Hp & Hm & _).
  assert (is_white_space c = false) as Hcw.
  { apply digit_or_point_not_space. unfold digit_or_point. now rewrite Hc. }
  repeat split.
  - unfold ToNumber, trim. rewrite (trim_start_id c r Hcw), (trim_end_id _ Hw).
    cbn [String.eqb].
    assert (non_decimal_number (String c r) = None) as ->.
    { unfold non_decimal_number. destruct r as [|c' r']; [reflexivity|].
      destruct (Ascii.eqb c "0"); [|reflexivity].
      rewrite radix_of_plain; [reflexivity|].
      cbn [list_ascii_of_string forallb] in Hall.
      apply andb_prop in Hall as [_ Hall]. now apply andb_prop in Hall as [Hall _]. }
    unfold decimal_number. rewrite Hp, Hm, Hl. reflexivity.
  - unfold ToNumber, trim. change ("-" ++ String c r) with (String "-"%char (String c r)).
    rewrite (trim_start_id "-"%char _ eq_refl).
    rewrite (trim_end_id (String "-"%char (String c r)))
      by (cbn [list_ascii_of_string forallb] in *; now rewrite Hw).
    cbn [String.eqb].
    assert (non_decimal_number (String "-"%char (String c r)) = None) as ->
      by reflexivity.
    unfold decimal_number. change (Ascii.eqb "-" "+") with false.
    change (Ascii.eqb "-" "-") with true. cbv iota. now rewrite Hl.
  - now apply parseFloat_unsigned.
  - now apply parseFloat_minus.
Qed.

(** *** [formatCurrency] on a formatted value *)

Lemma scaled_nonneg (m : positive) (e : Z) (f : nat) : 0 <= scaled (Z.pos m) e f.
Proof.
  unfold scaled. destruct (0 <=? e) eqn:E.
  - apply Z.leb_le in E.
    apply Z.mul_nonneg_nonneg; [apply Z.mul_nonneg_nonneg|]; try lia;
      apply Z.pow_nonneg; lia.
  - assert (0 < 2 ^ (- e)) as HP by (apply Z.pow_pos_nonneg; apply Z.leb_gt in E; lia).
    pose proof (round_half_expand_bounds (Z.pos m * 10 ^ Z.of_nat f) (2 ^ (- e)) HP) as R.
    assert (0 <= Z.pos m * 10 ^ Z.of_nat f)
      by (apply Z.mul_nonneg_nonneg; [lia | apply Z.pow_nonneg; lia]).
    set (r := round_half_expand _ _) in *. clearbody r. nia.
Qed.

Lemma fraction_chars (fr : Z) :
  forallb digit_or_point (list_ascii_of_string (fraction 3 fr)) = true.
Proof.
  unfold fraction. destruct (fr =? 0); [reflexivity|].
  destruct (strip_zeros 3 fr 0) as [d z].
  change ("." ++ fixed (3 - Z.to_nat z) d "") with (String "."%char (fixed (3 - Z.to_nat z) d "")).
  cbn [list_ascii_of_string forallb]. change (digit_or_point ".") with true. cbv iota.
  apply fixed_forallb; [|reflexivity].
  intros k Hk. unfold digit_or_point. now rewrite digit_char_is_digit.
Qed.

Lemma not_NaN (v : number) : Prim2SF v <> S754_nan -> isNaN v = false.
Proof.
  intros H. destruct (isNaN v) eqn:E; [|reflexivity].
  apply isNaN_spec in E. subst. now elim H.
Qed.

(** A value that [toLocaleString('en-IN')] printed is left as it is. *)
Lemma formatCurrency_formatted (x : number) :
  formatCurrency (toLocaleString_en_IN 3 x) = toLocaleString_en_IN 3 x.
Proof.
  unfold toLocaleString_en_IN at 1 2.
  destruct (Prim2SF x) as [s|s| |s m e] eqn:E;
    [destruct s; vm_compute; reflexivity
    |destruct s; vm_compute; reflexivity
    |vm_compute; reflexivity
    |].
  assert (Prim2SF (abs x) = S754_finite false m e) as Ea
    by (rewrite abs_spec, E; reflexivity).
  pose proof (scaled_nonneg m e 3) as Hr.
  change (10 ^ Z.of_nat 3) with 1000.
  set (r := scaled (Z.pos m) e 3) in *.
  set (t := decimal (r / 1000) ++ fraction 3 (r mod 1000)).
  destruct (decimal_head (r / 1000)) as (d0 & r0 & Hd0 & Eh).
  assert (t = String (digit_char d0) (r0 ++ fraction 3 (r mod 1000))) as Et
    by (unfold t; now rewrite Eh).
  assert (forallb digit_or_point (list_ascii_of_string t) = true) as Hall.
  { unfold t. rewrite ScriptFacts.list_ascii_of_string_app, forallb_app, fraction_chars, andb_true_r.
    eapply forallb_impl; [|apply decimal_digits].
    intros a Ha. unfold digit_or_point. now rewrite Ha. }
  pose proof (literal_thousandths r Hr) as Hl. fold t in Hl.
  set (y := if r =? 0 then zero else of_rational r 1000) in *.
  rewrite Et in Hall, Hl.
  destruct (plain_numbers y (digit_char d0) _ (digit_char_is_digit d0 Hd0) Hall Hl)
    as (Tp & Tm & Pp & Pm).
  rewrite <- Et in Tp, Tm, Pp, Pm.
  assert (remove_commas ((if s then "-" else "") ++ group (decimal (r / 1000))
                           ++ fraction 3 (r mod 1000))
          = (if s then "-" else "") ++ t) as Rc.
  { rewrite !remove_commas_app. f_equal; [now destruct s|]. unfold t. f_equal.
    - apply remove_commas_group. eapply forallb_impl; [|apply decimal_digits].
      apply is_digit_no_comma.
    - apply remove_commas_id. eapply forallb_impl; [|apply fraction_chars].
      apply digit_or_point_no_comma. }
  assert (Prim2SF y = S754_zero false /\ r = 0
          \/ exists m' e', Prim2SF y = S754_finite false m' e'
                           /\ scaled (Z.pos m') e' 3 = r) as Hy.
  { unfold y. destruct (Z.eqb_spec r 0) as [R0|R0]; [left; split; [reflexivity | exact R0]|].
    right. apply (thousandths_round_trip (abs x) m e Ea). fold r. lia. }
  unfold formatCurrency. rewrite Rc.
  assert (String.eqb ((if s then "-" else "") ++ t) "" = false) as ->
    by (rewrite Et; now destruct s).
  destruct s.
  - rewrite Tm, Pm.
    assert (isNaN (- y)%float = false) as ->.
    { apply not_NaN. rewrite opp_spec. destruct Hy as [[-> _]|(m' & e' & -> & _)]; discriminate. }
    cbn [negb andb]. unfold toLocaleString_en_IN. rewrite opp_spec.
    destruct Hy as [[-> R0]|(m' & e' & -> & Hs)].
    + fold r. rewrite R0. reflexivity.
    + cbn [SFopp negb]. change (10 ^ Z.of_nat 3) with 1000. now rewrite Hs.
  - change ("" ++ t) with t. rewrite Tp, Pp.
    assert (isNaN y = false) as ->.
    { apply not_NaN. destruct Hy as [[-> _]|(m' & e' & -> & _)]; discriminate. }
    cbn [negb andb]. unfold toLocaleString_en_IN.
    destruct Hy as [[-> R0]|(m' & e' & -> & Hs)].
    + fold r. rewrite R0. reflexivity.
    + change (10 ^ Z.of_nat 3) with 1000. now rewrite Hs.
Qed.

(** C10. [formatCurrency] is idempotent on the value of the field: for
    every text (a number or not), formatting the formatted value again
    leaves it as it is, since a value printed by
    [toLocaleString('en-IN')], commas removed, reads as a number that
    prints the same. *)
Theorem formatCurrency_idempotent (v : string) :
  formatCurrency (formatCurrency v) = formatCurrency v.
Proof.
  assert (formatCurrency v = v
          \/ exists x, formatCurrency v = toLocaleString_en_IN 3 x) as [E|[x E]].
  { unfold formatCurrency. destruct (_ && _); eauto. }
  - now rewrite !E.
  - rewrite E. apply formatCurrency_formatted.
Qed.

End CurrencyFacts.

(** ** The ledger *)

Module LedgerFacts.

Import Ledger.
Local Open Scope Q_scope.

Lemma sum_amounts_app (l1 l2 : list Transaction) :
  sum_amounts (l1 ++ l2) == sum_amounts l1 + sum_amounts l2.
Proof.
  induction l1 as [|t l1 IH]; simpl.
  - lra.
  - fold (sum_amounts (l1 ++ l2)). fold (sum_amounts l1). lra.
Qed.

Lemma transactions_of_none (id : nat) (s : Store) :
  (forall t, In t (transactions s) -> employee_id t <> id) ->
  transactions_of id s = [].
Proof.
  unfold transactions_of. intros H.
  induction (transactions s) as [|t l IH]; simpl; [reflexivity|].
  destruct (Nat.eqb_spec (employee_id t) id) as [E|E].
  - exfalso. apply (H t); [left; reflexivity | exact E].
  - apply IH. intros t' I. apply H. right. exact I.
Qed.

Lemma filter_filter_other (id id' : nat) (l : list Transaction) :
  id' <> id ->
  List.filter (fun t => Nat.eqb (employee_id t) id')
    (List.filter (fun t => negb (Nat.eqb (employee_id t) id)) l)
  = List.filter (fun t => Nat.eqb (employee_id t) id') l.
Proof.
  intros Hne. induction l as [|t l IH]; simpl; [reflexivity|].
  destruct (Nat.eqb_spec (employee_id t) id) as [E|E]; simpl.
  - destruct (Nat.eqb_spec (employee_id t) id') as [E'|E']; [congruence | exact IH].
  - destruct (Nat.eqb_spec (employee_id t) id'); [f_equal|]; exact IH.
Qed.

(** *** What a command does to the balances *)

Lemma addEmployee_ok n d sal j s :
  valid_fields n sal j = None ->
  addEmployee n d sal j s
  = (Ok (next_employee_id s,
         {| name := n; designation := d; monthly_salary := sal; join_date := j |}),
     {| employees := <[next_employee_id s :=
                         {| name := n; designation := d; monthly_salary := sal;
                            join_date := j |}]> (employees s);
        transactions := transactions s;
        next_employee_id := S (next_employee_id s);
        next_tx_id := next_tx_id s |}).
Proof. intros H. unfold addEmployee. now rewrite H. Qed.

Lemma valid_fields_salary n sal j : valid_fields n sal j = None -> 0 <= sal.
Proof.
  unfold valid_fields. destruct (String.eqb n ""); [discriminate|].
  destruct (Qle_bool 0 sal) eqn:E; [|discriminate].
  intros _. now apply Qle_bool_iff.
Qed.

(** The three outcomes of [recordWithdrawal]. *)
Lemma recordWithdrawal_cases today id amt d n s :
  (employees s !! id = None
   /\ recordWithdrawal today id amt d n s = (Err (NotFoundError id), s))
  \/ (exists e, employees s !! id = Some e
      /\ (amt <= 0 \/ monthly_salary e - withdrawn id s < amt)
      /\ recordWithdrawal today id amt d n s
         = (Err (ValidationError "amount" (Some (monthly_salary e - withdrawn id s))), s))
  \/ (exists e, employees s !! id = Some e
      /\ 0 < amt <= monthly_salary e - withdrawn id s
      /\ recordWithdrawal today id amt d n s
         = (Ok {| tx_id := next_tx_id s; employee_id := id; amount := amt;
                  tx_date := default today d; note := n |},
            {| employees := employees s;
               transactions := transactions s ++
                 [{| tx_id := next_tx_id s; employee_id := id; amount := amt;
                     tx_date := default today d; note := n |}];
               next_employee_id := next_employee_id s;
               next_tx_id := S (next_tx_id s) |})).
Proof.
  unfold recordWithdrawal. destruct (employees s !! id) as [e|] eqn:E.
  - right. destruct (Qle_bool amt 0) eqn:L0.
    + left. exists e. apply Qle_bool_iff in L0. auto.
    + destruct (Qle_bool amt (monthly_salary e - withdrawn id s)) eqn:L1; simpl.
      * right. exists e. apply Qle_bool_iff in L1.
        assert (~ amt <= 0) by (rewrite <- Qle_bool_iff; congruence).
        repeat split; try lra.
      * left. exists e.
        assert (~ amt <= monthly_salary e - withdrawn id s)
          by (rewrite <- Qle_bool_iff; congruence).
        repeat split; try reflexivity. right. lra.
  - left. auto.
Qed.

Lemma run_well_formed (c : command) (s : Store) :
  well_formed s -> well_formed (run c s).
Proof.
  intros (Href & Hid & Htx). destruct c as [n d sal j | id | today id amt d n]; simpl.
  - unfold addEmployee. destruct (valid_fields n sal j); simpl; [now repeat split|].
    repeat split; simpl.
    + intros t I. pose proof (Href t I) as R. pose proof (Hid _ R).
      rewrite lookup_insert_is_Some. right. split; [lia | exact R].
    + intros id. rewrite lookup_insert_is_Some. intros [<-|[_ I]]; [lia|].
      apply Hid in I. lia.
    + exact Htx.
  - unfold deleteEmployee. destruct (employees s !! id) eqn:E; simpl; [|now repeat split].
    repeat split; simpl.
    + intros t I. apply filter_In in I as [I N].
      apply negb_true_iff, Nat.eqb_neq in N.
      rewrite lookup_delete_is_Some. split; [congruence | apply Href, I].
    + intros id'. rewrite lookup_delete_is_Some. intros [_ I]. apply Hid, I.
    + intros t I. apply filter_In in I as [I _]. apply Htx, I.
  - destruct (recordWithdrawal_cases today id amt d n s)
      as [[_ ->] | [(e & _ & _ & ->) | (e & E & _ & ->)]]; simpl;
      try now repeat split.
    repeat split; simpl.
    + intros t I. apply in_app_or in I as [I|[<-|[]]]; [apply Href, I|].
      simpl. rewrite E. eauto.
    + exact Hid.
    + intros t I. apply in_app_or in I as [I|[<-|[]]]; [apply Htx in I; lia|].
      simpl. lia.
Qed.

Lemma run_solvent (c : command) (s : Store) :
  well_formed s -> solvent s -> solvent (run c s).
Proof.
  intros (Href & Hid & Htx) Hs. destruct c as [n d sal j | id | today id amt d n]; simpl.
  - destruct (valid_fields n sal j) as [err|] eqn:V.
    + unfold addEmployee. rewrite V. exact Hs.
    + rewrite addEmployee_ok by exact V. simpl.
      intros id r. unfold remaining, withdrawn. simpl.
      destruct (decide (next_employee_id s = id)) as [<-|Hne].
      * rewrite lookup_insert_eq. intros [= <-]. simpl.
        rewrite transactions_of_none.
        -- apply valid_fields_salary in V. simpl. lra.
        -- simpl. intros t I Ee. apply Href in I. rewrite Ee in I.
           apply Hid in I. lia.
      * rewrite lookup_insert_ne by exact Hne. apply (Hs id r).
  - unfold deleteEmployee. destruct (employees s !! id) eqn:E; simpl; [|exact Hs].
    intros id' r. unfold remaining, withdrawn, transactions_of. simpl.
    destruct (decide (id = id')) as [<-|Hne].
    + rewrite lookup_delete_eq. discriminate.
    + rewrite lookup_delete_ne by exact Hne.
      rewrite filter_filter_other by congruence. apply (Hs id' r).
  - destruct (recordWithdrawal_cases today id amt d n s)
      as [[_ ->] | [(e & _ & _ & ->) | (e & E & B & ->)]]; simpl;
      try exact Hs.
    intros id' r. unfold remaining, withdrawn, transactions_of. simpl.
    rewrite filter_app. simpl.
    destruct (Nat.eqb_spec id id') as [<-|Hne].
    + rewrite E. intros [= <-]. rewrite sum_amounts_app. simpl.
      unfold withdrawn, transactions_of in B. lra.
    + rewrite app_nil_r. apply (Hs id' r).
Qed.

Lemma run_all_invariant (cs : list command) (s : Store) :
  well_formed s -> solvent s ->
  well_formed (run_all cs s) /\ solvent (run_all cs s).
Proof.
  revert s. induction cs as [|c cs IH]; intros s W S; simpl; [auto|].
  apply IH; [apply run_well_formed | apply run_solvent]; assumption.
Qed.

Lemma empty_store_well_formed : well_formed empty_store.
Proof.
  repeat split; simpl.
  - intros t [].
  - intros id. rewrite lookup_empty. intros [? ?]. discriminate.
  - intros t [].
Qed.

Lemma empty_store_solvent : solvent empty_store.
Proof. intros id r. unfold remaining. simpl. rewrite lookup_empty. discriminate. Qed.

(** C3. After any sequence of add, delete and withdrawal commands (no
    salary edit) on an empty ledger, every employee's remaining balance,
    the monthly salary minus the sum of the withdrawn amounts, is
    [>= 0]. *)
Theorem remaining_never_negative (cs : list command) (id : nat) (r : Q) :
  remaining id (run_all cs empty_store) = Some r -> 0 <= r.
Proof.
  apply (run_all_invariant cs empty_store empty_store_well_formed
           empty_store_solvent).
Qed.

Lemma remaining_never_negative_witness : 0 <= 0.
Proof.
  apply (remaining_never_negative scenario 1 0). vm_compute. reflexivity.
Defined.

(** *** The dashboard *)

Lemma earlier_trans (a b c : date) : earlier a b -> earlier b c -> earlier a c.
Proof. unfold earlier. lia. Qed.

Lemma earlier_total (a b : date) : earlier a b \/ a = b \/ earlier b a.
Proof.
  destruct a as [y m d], b as [y' m' d']. unfold earlier. simpl.
  destruct (lt_eq_lt_dec y y') as [[?|?]|?]; try lia.
  destruct (lt_eq_lt_dec m m') as [[?|?]|?]; try lia.
  destruct (lt_eq_lt_dec d d') as [[?|?]|?]; try lia.
  right. left. congruence.
Qed.

Lemma earlier_irrefl (a : date) : ~ earlier a a.
Proof. unfold earlier. lia. Qed.

Global Instance newer_total : Total newer.
Proof.
  intros t1 t2. unfold newer.
  destruct (earlier_total (tx_date t1) (tx_date t2)) as [H|[H|H]]; auto.
  destruct (le_ge_dec (tx_id t1) (tx_id t2)); [right | left]; right; split;
    (congruence || lia).
Qed.

Global Instance newer_trans : Transitive newer.
Proof.
  intros t1 t2 t3. unfold newer. intros [H|[E H]] [H'|[E' H']].
  - left. eapply earlier_trans; eassumption.
  - left. rewrite E'. exact H.
  - left. rewrite <- E. exact H'.
  - right. split; [congruence | lia].
Qed.

Lemma sum_salaries_perm (l1 l2 : list Employee) :
  Permutation l1 l2 ->
  foldr (fun e acc => monthly_salary e + acc) 0 l1
  == foldr (fun e acc => monthly_salary e + acc) 0 l2.
Proof.
  induction 1 as [|x l l' _ IH|x y l|l l' l'' _ IH1 _ IH2]; simpl; lra.
Qed.

(** The sum of the salaries does not depend on the order in which the
    table is read: a new employee adds its salary. *)
Lemma sum_salaries_insert (m : gmap nat Employee) (id : nat) (e : Employee) :
  m !! id = None ->
  sum_salaries (<[id := e]> m) == monthly_salary e + sum_salaries m.
Proof.
  intros H. unfold sum_salaries.
  rewrite (sum_salaries_perm _ (e :: map snd (map_to_list m))); [reflexivity|].
  change (e :: map snd (map_to_list m)) with (map snd ((id, e) :: map_to_list m)).
  apply Permutation_map, map_to_list_insert, H.
Qed.

Lemma sum_salaries_empty : sum_salaries ∅ = 0.
Proof. unfold sum_salaries. now rewrite map_to_list_empty. Qed.

(** C6. The dashboard summary is a function of the store at query time:
    the totals are the sums over the employees and transactions of the
    store, [total_remaining = total_salary - total_withdrawn], and the
    recent transactions are at most 10, the first of the transactions in
    the order "later date first, later created first on one date". A
    withdrawal or a new employee shows in the totals of the next query. *)
Theorem getDashboardSummary_spec (s : Store) :
  let d := getDashboardSummary s in
  employee_count d = size (employees s)
  /\ total_salary d = sum_salaries (employees s)
  /\ total_withdrawn d = sum_amounts (transactions s)
  /\ total_remaining d = total_salary d - total_withdrawn d
  /\ (List.length (recent_transactions d) <= 10)%nat
  /\ StronglySorted newer (recent_transactions d)
  /\ (exists older,
        Permutation (recent_transactions d ++ older) (transactions s)
        /\ forall t t', In t (recent_transactions d) -> In t' older -> newer t t')
  /\ (forall today id amt dt n t s',
        recordWithdrawal today id amt dt n s = (Ok t, s') ->
        total_withdrawn (getDashboardSummary s') == total_withdrawn d + amt
        /\ total_remaining (getDashboardSummary s') == total_remaining d - amt)
  /\ (forall n dsg sal j r s',
        well_formed s ->
        addEmployee n dsg sal j s = (Ok r, s') ->
        total_salary (getDashboardSummary s') == total_salary d + sal
        /\ total_remaining (getDashboardSummary s') == total_remaining d + sal).
Proof.
  intros d. repeat split; try reflexivity.
  - simpl. rewrite length_take. lia.
  - simpl. apply (StronglySorted_app_1_l newer _ (drop 10 (merge_sort newer (transactions s)))).
    rewrite take_drop. apply StronglySorted_merge_sort; apply _.
  - exists (drop 10 (merge_sort newer (transactions s))). simpl. split.
    + rewrite take_drop. apply merge_sort_Permutation.
    + intros t t' I I'.
      apply (StronglySorted_app_1_elem_of newer (take 10 (merge_sort newer (transactions s)))
               (drop 10 (merge_sort newer (transactions s)))).
      * rewrite take_drop. apply StronglySorted_merge_sort; apply _.
      * apply list_elem_of_In, I.
      * apply list_elem_of_In, I'.
  - destruct (recordWithdrawal_cases today id amt dt n s)
      as [[_ E] | [(e & _ & _ & E) | (e & _ & _ & E)]];
      rewrite E in H; inversion H; subst; clear H.
    simpl. rewrite sum_amounts_app. simpl. lra.
  - destruct (recordWithdrawal_cases today id amt dt n s)
      as [[_ E] | [(e & _ & _ & E) | (e & _ & _ & E)]];
      rewrite E in H; inversion H; subst; clear H.
    simpl. rewrite sum_amounts_app. simpl. lra.
  - destruct H as (_ & Hid & _). unfold addEmployee in H0.
    destruct (valid_fields n sal j); inversion H0; subst; clear H0.
    unfold d. simpl. rewrite sum_salaries_insert; [simpl; lra|].
    destruct (employees s !! next_employee_id s) eqn:E; [|reflexivity].
    assert (is_Some (employees s !! next_employee_id s)) as I by (rewrite E; eauto).
    apply Hid in I. lia.
  - destruct H as (_ & Hid & _). unfold addEmployee in H0.
    destruct (valid_fields n sal j); inversion H0; subst; clear H0.
    unfold d. simpl. rewrite sum_salaries_insert; [simpl; lra|].
    destruct (employees s !! next_employee_id s) eqn:E; [|reflexivity].
    assert (is_Some (employees s !! next_employee_id s)) as I by (rewrite E; eauto).
    apply Hid in I. lia.
Qed.

(** *** Deleting an employee *)

(** C7. Deleting an employee of the store succeeds and removes the
    employee together with exactly the transactions of that employee, in
    one step (for any id the store is either unchanged or without both);
    a withdrawal for the deleted id then fails with [NotFoundError]. *)
Theorem deleteEmployee_cascade (s : Store) (id : nat) (e : Employee) :
  employees s !! id = Some e ->
  let s' := snd (deleteEmployee id s) in
  fst (deleteEmployee id s) = Ok tt
  /\ employees s' !! id = None
  /\ (forall t, In t (transactions s') <-> In t (transactions s) /\ employee_id t <> id)
  /\ (forall id', id' <> id -> employees s' !! id' = employees s !! id')
  /\ (forall today amt d n,
        recordWithdrawal today id amt d n s' = (Err (NotFoundError id), s'))
  /\ (forall id',
        snd (deleteEmployee id' s) = s
        \/ (employees (snd (deleteEmployee id' s)) !! id' = None
            /\ forall t, In t (transactions (snd (deleteEmployee id' s))) ->
                         employee_id t <> id')).
Proof.
  intros E s'.
  assert (forall id',
        snd (deleteEmployee id' s) = s
        \/ (employees (snd (deleteEmployee id' s)) !! id' = None
            /\ forall t, In t (transactions (snd (deleteEmployee id' s))) ->
                         employee_id t <> id')) as Atomic.
  { intros id'. unfold deleteEmployee.
    destruct (employees s !! id'); [right | left; reflexivity]. simpl. split.
    - apply lookup_delete_eq.
    - intros t I. apply filter_In in I as [_ I].
      apply negb_true_iff, Nat.eqb_neq in I. exact I. }
  unfold s', deleteEmployee. rewrite E. simpl. repeat split; try exact Atomic.
  - apply lookup_delete_eq.
  - apply filter_In in H. apply H.
  - apply filter_In in H as [_ H]. apply negb_true_iff, Nat.eqb_neq in H. exact H.
  - intros [I N]. apply filter_In. split; [exact I|].
    apply negb_true_iff, Nat.eqb_neq. exact N.
  - intros id' N. apply lookup_delete_ne. congruence.
  - intros today amt d n. unfold recordWithdrawal. simpl.
    now rewrite lookup_delete_eq.
Qed.

Lemma deleteEmployee_cascade_witness :
  let s := run_all scenario empty_store in
  let s' := snd (deleteEmployee 1 s) in
  fst (deleteEmployee 1 s) = Ok tt
  /\ employees s' !! 1%nat = None
  /\ (forall t, In t (transactions s') <-> In t (transactions s) /\ employee_id t <> 1%nat)
  /\ (forall id', id' <> 1%nat -> employees s' !! id' = employees s !! id')
  /\ (forall today amt d n,
        recordWithdrawal today 1 amt d n s' = (Err (NotFoundError 1), s'))
  /\ (forall id',
        snd (deleteEmployee id' s) = s
        \/ (employees (snd (deleteEmployee id' s)) !! id' = None
            /\ forall t, In t (transactions (snd (deleteEmployee id' s))) ->
                         employee_id t <> id')).
Proof.
  apply (deleteEmployee_cascade (run_all scenario empty_store) 1
           {| name := "A"; designation := "Cook"; monthly_salary := 30000;
              join_date := Date 2024 1 1 |}).
  vm_compute. reflexivity.
Defined.

Lemma deleteEmployee_unknown (s : Store) (id : nat) :
  employees s !! id = None -> deleteEmployee id s = (Err (NotFoundError id), s).
Proof. intros E. unfold deleteEmployee. now rewrite E. Qed.

(** *** The scenarios of the specification *)

(** An edit leaves the transactions as they are, also when it lowers the
    salary below what was withdrawn. *)
Lemma editEmployee_transactions id n d sal j s :
  transactions (snd (editEmployee id n d sal j s)) = transactions s.
Proof.
  unfold editEmployee. destruct (employees s !! id); [|reflexivity].
  destruct (valid_fields n sal j); reflexivity.
Qed.

(** While an employee is overdrawn, no withdrawal is recorded. *)
Lemma recordWithdrawal_overdrawn today id amt d n s r :
  remaining id s = Some r -> r < 0 ->
  exists err, recordWithdrawal today id amt d n s = (Err err, s).
Proof.
  unfold remaining. intros E Hr.
  destruct (recordWithdrawal_cases today id amt d n s)
    as [[_ ->] | [(e & _ & _ & ->) | (e & Ee & B & _)]]; eauto.
  rewrite Ee in E. injection E as <-. lra.
Qed.

(** The scenario of the specification, step by step. *)
Example scenario_steps :
  let s1 := run_all (take 1 scenario) empty_store in
  let s2 := run_all (take 2 scenario) empty_store in
  let s4 := run_all scenario empty_store in
  remaining 1 s1 = Some 30000
  /\ remaining 1 s2 = Some 20000
  /\ fst (recordWithdrawal (Date 2024 1 11) 1 25000 None None s2)
     = Err (ValidationError "amount" (Some 20000))
  /\ snd (recordWithdrawal (Date 2024 1 11) 1 25000 None None s2) = s2
  /\ remaining 1 s4 = Some 0
  /\ map tx_id (recent_transactions (getDashboardSummary s4)) = [1; 2]%nat
  /\ fst (recordWithdrawal (Date 2024 2 1) 1 100 None None (snd (deleteEmployee 1 s4)))
     = Err (NotFoundError 1).
Proof. repeat split; vm_compute; reflexivity. Qed.

Example addEmployee_rejects :
  fst (addEmployee "" "Cook" 20000 (Date 2024 1 1) empty_store)
  = Err (ValidationError "name" None)
  /\ fst (addEmployee "Raj" "Waiter" (-500) (Date 2024 1 1) empty_store)
     = Err (ValidationError "monthly_salary" None)
  /\ fst (addEmployee "Raj" "Waiter" 500 (Date 2023 2 29) empty_store)
     = Err (ValidationError "join_date" None).
Proof. repeat split; vm_compute; reflexivity. Qed.

End LedgerFacts.

(** ** What the salary box shows *)

Module DisplayFacts.

Lemma commas_at_pairs (l : list ascii) (i : nat) :
  forallb no_comma l = true -> (i mod 3 = 1)%nat -> commas_at i (pairs l) = true.
Proof.
  assert (forall n k j, (List.length k <= n)%nat -> forallb no_comma k = true ->
            (j mod 3 = 1)%nat -> commas_at j (pairs k) = true) as G.
  { clear l i. induction n as [|n IH]; intros l i Hn H Hi.
    - destruct l; [reflexivity | simpl in Hn; lia].
    - assert (forall c, no_comma c = true -> Ascii.eqb c "," = false) as NC
        by (intros c Hc; unfold no_comma in Hc; now apply negb_true_iff in Hc).
      assert (((i mod 3 =? 0) = false)%nat) as I0 by (apply Nat.eqb_neq; lia).
      assert ((S i mod 3 = 2)%nat) as I1.
      { replace (S i) with (1 + i)%nat by lia.
        rewrite Nat.Div0.add_mod, Hi. reflexivity. }
      assert (((S i mod 3 =? 0) = false)%nat) as I1' by (apply Nat.eqb_neq; lia).
      assert ((S (S i) mod 3 = 0)%nat) as I2.
      { replace (S (S i)) with (2 + i)%nat by lia.
        rewrite Nat.Div0.add_mod, Hi. reflexivity. }
      assert ((S (S (S i)) mod 3 = 1)%nat) as I3.
      { replace (S (S (S i))) with (3 + i)%nat by lia.
        rewrite Nat.Div0.add_mod, Hi. reflexivity. }
      destruct l as [|a [|b [|c r]]]; [reflexivity| | |].
      + simpl in H. rewrite andb_true_r in H. cbn [pairs commas_at].
        rewrite (NC a H), I0, andb_false_r. reflexivity.
      + cbn [forallb] in H. apply andb_prop in H as [Ha H].
        rewrite andb_true_r in H. cbn [pairs commas_at].
        rewrite (NC a Ha), (NC b H), I0, I1', !andb_false_r. reflexivity.
      + change (pairs (a :: b :: c :: r)) with (a :: b :: ","%char :: pairs (c :: r)).
        cbn [forallb] in H. apply andb_prop in H as [Ha H].
        apply andb_prop in H as [Hb H].
        cbn [commas_at]. rewrite (NC a Ha), (NC b Hb), I0, I1', !andb_false_r.
        change (Ascii.eqb "," ",") with true.
        rewrite I2. replace (3 <=? S (S i))%nat with true
          by (symmetry; apply Nat.leb_le; destruct i as [|[|i]]; [discriminate Hi | lia | lia]).
        cbn [Bool.eqb andb Nat.eqb].
        apply IH; [simpl in *; lia | exact H | exact I3]. }
  apply (G (List.length l)). lia.
Qed.

Lemma last_pairs (l : list ascii) (d : ascii) : List.last (pairs l) d = List.last l d.
Proof.
  assert (forall n k, (List.length k <= n)%nat -> List.last (pairs k) d = List.last k d) as G.
  { clear l. induction n as [|n IH]; intros l Hn.
    - destruct l; [reflexivity | simpl in Hn; lia].
    - destruct l as [|a [|b [|c r]]]; try reflexivity.
      change (pairs (a :: b :: c :: r)) with (a :: b :: ","%char :: pairs (c :: r)).
      change (List.last (a :: b :: c :: r) d) with (List.last (c :: r) d).
      rewrite <- (IH (c :: r)) by (simpl in *; lia).
      destruct (pairs (c :: r)) eqn:E; [|reflexivity].
      destruct r as [|x [|y r']]; discriminate E. }
  apply (G (List.length l)). lia.
Qed.

Lemma last_no_comma (l : list ascii) :
  forallb no_comma l = true -> no_comma (List.last l "0"%char) = true.
Proof.
  induction l as [|a l IH]; [reflexivity|]. cbn [forallb]. intros H.
  apply andb_prop in H as [Ha H]. destruct l as [|b l]; [exact Ha|].
  apply IH, H.
Qed.

(** [group] puts the commas at the en-IN places. *)
Lemma group_en_IN (ds : string) :
  forallb no_comma (list_ascii_of_string ds) = true ->
  en_IN_grouped (group ds) = true.
Proof.
  intros H. unfold en_IN_grouped, group.
  assert (forallb no_comma (rev (list_ascii_of_string ds)) = true) as Hr
    by (now rewrite ScriptFacts.forallb_rev).
  assert (forall c, no_comma c = true -> Ascii.eqb c "," = false) as NC
    by (intros c Hc; unfold no_comma in Hc; now apply negb_true_iff in Hc).
  destruct (rev (list_ascii_of_string ds)) as [|a [|b [|c [|d r]]]] eqn:E.
  - rewrite E. reflexivity.
  - rewrite E. simpl in Hr. rewrite andb_true_r in Hr.
    cbn [commas_at List.last]. now rewrite (NC a Hr), Hr.
  - rewrite E. cbn [forallb] in Hr. apply andb_prop in Hr as [Ha Hb].
    rewrite andb_true_r in Hb.
    cbn [commas_at List.last]. now rewrite (NC a Ha), (NC b Hb), Hb.
  - rewrite E. cbn [forallb] in Hr. apply andb_prop in Hr as [Ha Hr].
    apply andb_prop in Hr as [Hb Hc]. rewrite andb_true_r in Hc.
    cbn [commas_at List.last]. now rewrite (NC a Ha), (NC b Hb), (NC c Hc), Hc.
  - rewrite list_ascii_of_string_of_list_ascii, rev_involutive.
    cbn [forallb] in Hr. apply andb_prop in Hr as [Ha Hr].
    apply andb_prop in Hr as [Hb Hr]. apply andb_prop in Hr as [Hc Hr].
    cbn [commas_at]. rewrite (NC a Ha), (NC b Hb), (NC c Hc).
    change (Ascii.eqb "," ",") with true. cbn [Nat.leb Nat.modulo Nat.eqb Bool.eqb andb].
    rewrite (commas_at_pairs (d :: r) 4 Hr eq_refl). cbn [andb].
    change (List.last (a :: b :: c :: ","%char :: pairs (d :: r)) "0"%char)
      with (List.last (","%char :: pairs (d :: r)) "0"%char).
    assert (pairs (d :: r) <> []) as Ne by (destruct r as [|x [|y r']]; discriminate).
    destruct (pairs (d :: r)) as [|p ps] eqn:Ep; [now elim Ne|].
    change (List.last (","%char :: p :: ps) "0"%char) with (List.last (p :: ps) "0"%char).
    rewrite <- Ep, last_pairs. now apply last_no_comma.
Qed.

(** What [formatNumber] prints for a finite number other than zero. *)
Lemma formatNumber_finite (x : number) (s : bool) (m : positive) (e : Z) :
  Prim2SF x = S754_finite s m e ->
  formatNumber x = (if s then "-" else "") ++ group (decimal (scaled (Z.pos m) e 0)).
Proof.
  intros E. unfold formatNumber, toLocaleString_en_IN. rewrite E.
  change (10 ^ Z.of_nat 0) with 1. rewrite Z.mod_1_r, Z.div_1_r.
  change (fraction 0 0) with "". now rewrite CurrencyFacts.append_empty_r.
Qed.

(** A number of at most 53 bits in units of [2^e], [e <= 0] (a number
    below [2^53] in magnitude), rounded to a whole number: the nearest
    one, halves away from zero. *)
Lemma scaled_whole (m : positive) (e : Z) :
  e <= 0 ->
  0 <= scaled (Z.pos m) e 0
  /\ (e = 0 -> scaled (Z.pos m) e 0 = Z.pos m)
  /\ (e < 0 ->
      - 2 ^ (- e) <= 2 * (Z.pos m - scaled (Z.pos m) e 0 * 2 ^ (- e)) < 2 ^ (- e)).
Proof.
  intros He. split; [apply CurrencyFacts.scaled_nonneg|]. split.
  - intros ->. unfold scaled. simpl. lia.
  - intros Hn. rewrite scaled_neg by assumption.
    change (10 ^ Z.of_nat 0) with 1. rewrite Z.mul_1_r.
    apply round_half_expand_bounds. apply Z.pow_pos_nonneg; lia.
Qed.

Lemma decimal_no_comma (n : Z) :
  forallb no_comma (list_ascii_of_string (decimal n)) = true.
Proof.
  eapply CurrencyFacts.forallb_impl; [|apply CurrencyFacts.decimal_digits].
  apply CurrencyFacts.is_digit_no_comma.
Qed.

Lemma append_assoc (a b c : string) : (a ++ b) ++ c = a ++ b ++ c.
Proof.
  induction a as [|x a IH]; [reflexivity|].
  change (String x ((a ++ b) ++ c) = String x (a ++ b ++ c)). now rewrite IH.
Qed.

Section Validation.

Variable toLocaleString : number -> string.

(** C1, amended. Opening the withdrawal dialog for an employee computes
    [remaining = totalSalary - withdrawn] and makes it the maximum of the
    amount field: the attribute reads back as [remaining] (up to the
    sign of zero) and is what [validateWithdrawal] checks a typed amount
    against. The salary box is the text of the template, with the three
    amounts as [formatNumber] prints them; what the remaining-balance row
    shows is therefore not [remaining] but, for a balance below [2^53] in
    magnitude, the whole number nearest to it (halves away from zero),
    its digits grouped the en-IN way, and "0" for a zero: it is
    [remaining] only when that is a whole number. *)
Theorem openWithdrawalModal_shows_rounded employeeId employeeName totalSalary withdrawn p :
  let remaining := (totalSalary - withdrawn)%float in
  let page := openWithdrawalModal employeeId employeeName totalSalary withdrawn p in
  salaryInfo_innerHTML page
    = "
        <h4 class="
      ++ q "font-semibold text-gray-800 mb-3"
      ++ ">Salary Details for "
      ++ ToString employeeName
      ++ "</h4>
        <div class="
      ++ q "space-y-2 text-sm"
      ++ ">
            <div class="
      ++ q "flex justify-between"
      ++ ">
                <span class="
      ++ q "text-gray-600"
      ++ ">Total Salary:</span>
                <span class="
      ++ q "font-semibold text-green-600"
      ++ ">Rs "
      ++ formatNumber totalSalary
      ++ "</span>
            </div>
            <div class="
      ++ q "flex justify-between"
      ++ ">
                <span class="
      ++ q "text-gray-600"
      ++ ">Already Withdrawn:</span>
                <span class="
      ++ q "font-semibold text-orange-600"
      ++ ">Rs "
      ++ formatNumber withdrawn
      ++ "</span>
            </div>
            <div class="
      ++ q "flex justify-between pt-2 border-t border-orange-200"
      ++ ">
                <span class="
      ++ q "text-gray-700 font-medium"
      ++ ">Remaining Balance:</span>
                <span class="
      ++ q "font-bold text-blue-600"
      ++ ">Rs "
      ++ formatNumber remaining
      ++ "</span>
            </div>
        </div>
    "
  /\ (forall s,
        Prim2SF remaining = S754_zero s ->
        formatNumber remaining = (if s then "-" else "") ++ "0")
  /\ (forall s m e,
        Prim2SF remaining = S754_finite s m e -> e <= 0 ->
        exists n g,
          0 <= n
          /\ (e = 0 -> n = Z.pos m)
          /\ (e < 0 -> - 2 ^ (- e) <= 2 * (Z.pos m - n * 2 ^ (- e)) < 2 ^ (- e))
          /\ formatNumber remaining = (if s then "-" else "") ++ g
          /\ remove_commas g = decimal n
          /\ en_IN_grouped g = true)
  /\ parseFloat (withdrawal_amount_max page) = (remaining + 0)%float
  /\ (forall v,
        validateWithdrawal toLocaleString (type_amount v page) =
        if gt (parseFloat v) remaining
        then (false, alert (exceeds_message toLocaleString (remaining + 0)%float)
                       (type_amount v page))
        else if le (parseFloat v) 0%float
             then (false, alert invalid_message (type_amount v page))
             else (true, type_amount v page)).
Proof.
  intros remaining page. split; [|split; [|split; [|split]]].
  - unfold page, openWithdrawalModal. cbn [salaryInfo_innerHTML].
    unfold salaryInfo, heading, total_row, withdrawn_row, remaining_row.
    fold remaining. rewrite !append_assoc. reflexivity.
  - intros s E. unfold formatNumber, toLocaleString_en_IN. now rewrite E.
  - intros s m e E He.
    destruct (scaled_whole m e He) as (H0 & Hz & Hn).
    exists (scaled (Z.pos m) e 0), (group (decimal (scaled (Z.pos m) e 0))).
    split; [exact H0|]. split; [exact Hz|]. split; [exact Hn|].
    split; [now apply formatNumber_finite|]. split.
    + apply CurrencyFacts.remove_commas_group, decimal_no_comma.
    + apply group_en_IN, decimal_no_comma.
  - apply parseFloat_numberToString.
  - intros v. apply ScriptFacts.validateWithdrawal_dialog.
Qed.

End Validation.

(** C1, as stated, fails: with a salary of 30000 and 9999.5 withdrawn the
    remaining balance is 20000.5, which is the maximum of the amount
    field, while the salary box shows "Rs 20,001" as the remaining
    balance (and "Rs 10,000" as withdrawn). *)
Lemma openWithdrawalModal_remaining_not_shown :
  (30000 - 9999.5)%float = 20000.5%float
  /\ withdrawal_amount_max
       (openWithdrawalModal (VNumber 7%float) (VString "Asha") 30000%float 9999.5%float blank)
     = "20000.5"
  /\ salaryInfo_innerHTML
       (openWithdrawalModal (VNumber 7%float) (VString "Asha") 30000%float 9999.5%float blank)
     = "
        <h4 class="
       ++ q "font-semibold text-gray-800 mb-3"
       ++ ">Salary Details for "
       ++ "Asha"
       ++ "</h4>
        <div class="
       ++ q "space-y-2 text-sm"
       ++ ">
            <div class="
       ++ q "flex justify-between"
       ++ ">
                <span class="
       ++ q "text-gray-600"
       ++ ">Total Salary:</span>
                <span class="
       ++ q "font-semibold text-green-600"
       ++ ">Rs "
       ++ "30,000"
       ++ "</span>
            </div>
            <div class="
       ++ q "flex justify-between"
       ++ ">
                <span class="
       ++ q "text-gray-600"
       ++ ">Already Withdrawn:</span>
                <span class="
       ++ q "font-semibold text-orange-600"
       ++ ">Rs "
       ++ "10,000"
       ++ "</span>
            </div>
            <div class="
       ++ q "flex justify-between pt-2 border-t border-orange-200"
       ++ ">
                <span class="
       ++ q "text-gray-700 font-medium"
       ++ ">Remaining Balance:</span>
                <span class="
       ++ q "font-bold text-blue-600"
       ++ ">Rs "
       ++ "20,001"
       ++ "</span>
            </div>
        </div>
    "
  /\ parseFloat (remove_commas "20,001") <> (30000 - 9999.5)%float.
Proof.
  split; [reflexivity|]. split; [vm_compute; reflexivity|].
  split; [vm_compute; reflexivity|].
  intros H. apply (f_equal Prim2SF) in H. vm_compute in H. discriminate H.
Qed.

(** What [formatNumber] prints has no decimal point. *)
Lemma formatNumber_point_free (x : number) : fraction_digits (formatNumber x) = None.
Proof.
  unfold formatNumber, toLocaleString_en_IN.
  destruct (Prim2SF x) as [s|s| |s m e]; try (destruct s; reflexivity);
    try reflexivity.
  change (10 ^ Z.of_nat 0) with 1. rewrite Z.mod_1_r, Z.div_1_r.
  change (fraction 0 0) with "".
  apply ScriptFacts.fraction_digits_none.
  assert (forallb (fun c => negb (Ascii.eqb c "."))
            (list_ascii_of_string (group (decimal (scaled (Z.pos m) e 0)))) = true) as G.
  { apply ScriptFacts.digit_or_comma_not_point, ScriptFacts.group_chars. unfold decimal.
    apply ScriptFacts.fixed_chars. reflexivity. }
  rewrite !ScriptFacts.list_ascii_of_string_app, !forallb_app, G.
  destruct s; reflexivity.
Qed.

(** C8, amended. The amounts of the withdrawal dialog are shown as whole
    numbers with en-IN digit grouping: what [formatNumber] prints never
    has a decimal point; for a zero it is "0" behind the sign; and for a
    number other than zero below [2^53] in magnitude it is the sign, then
    the decimal digits of the nearest whole number [n] (halves away from
    zero: [n - 1/2 <= |x| < n + 1/2]) with commas after every two digits
    in front of the last three, and nowhere else. *)
Theorem formatNumber_whole_number (x : number) :
  fraction_digits (formatNumber x) = None
  /\ (forall s, Prim2SF x = S754_zero s -> formatNumber x = (if s then "-" else "") ++ "0")
  /\ (forall s m e,
        Prim2SF x = S754_finite s m e -> e <= 0 ->
        exists n g,
          0 <= n
          /\ (e = 0 -> n = Z.pos m)
          /\ (e < 0 -> - 2 ^ (- e) <= 2 * (Z.pos m - n * 2 ^ (- e)) < 2 ^ (- e))
          /\ formatNumber x = (if s then "-" else "") ++ g
          /\ remove_commas g = decimal n
          /\ en_IN_grouped g = true).
Proof.
  split; [apply formatNumber_point_free|]. split.
  - intros s E. unfold formatNumber, toLocaleString_en_IN. now rewrite E.
  - intros s m e E He.
    destruct (scaled_whole m e He) as (H0 & Hz & Hn).
    exists (scaled (Z.pos m) e 0), (group (decimal (scaled (Z.pos m) e 0))).
    split; [exact H0|]. split; [exact Hz|]. split; [exact Hn|].
    split; [now apply formatNumber_finite|]. split.
    + apply CurrencyFacts.remove_commas_group, decimal_no_comma.
    + apply group_en_IN, decimal_no_comma.
Qed.

End DisplayFacts.

(** ** The amounts the dialog accepts and shows *)

Module DialogFacts.

(** Two numbers other than NaN compare. *)
Lemma SFcompare_total (x y : spec_float) :
  x <> S754_nan -> y <> S754_nan -> SFcompare x y <> None.
Proof.
  destruct x as [sx|sx| |sx mx ex], y as [sy|sy| |sy my ey]; simpl;
    intros Hx Hy; try congruence;
    try (destruct sx; discriminate); try (destruct sy; discriminate);
    try (destruct sx, sy; discriminate);
    destruct sx, sy; try discriminate;
    destruct (ex ?= ey); try discriminate;
    destruct (Pos.compare_cont Eq mx my); discriminate.
Qed.

Lemma isNaN_false (x : number) : isNaN x = false -> Prim2SF x <> S754_nan.
Proof.
  intros H E. assert (x = NaN) as -> by (apply Prim2SF_inj; exact E).
  discriminate H.
Qed.

(** Among numbers, [not (x > y)] is [x <= y]. *)
Lemma not_gt_le (x y : number) :
  isNaN x = false -> isNaN y = false -> gt x y = false -> le x y = true.
Proof.
  intros Hx Hy. apply isNaN_false in Hx, Hy.
  pose proof (SFcompare_total _ _ Hx Hy) as T.
  unfold gt, le. rewrite FloatAxioms.ltb_spec, FloatAxioms.leb_spec.
  unfold SFltb, SFleb. rewrite (SFcompare_swap (Prim2SF x) (Prim2SF y)).
  destruct (SFcompare (Prim2SF x) (Prim2SF y)) as [[]|]; simpl; congruence.
Qed.

(** Among numbers, [not (x <= y)] is [y < x]. *)
Lemma not_le_gt (x y : number) :
  isNaN x = false -> isNaN y = false -> le x y = false -> lt y x = true.
Proof.
  intros Hx Hy. apply isNaN_false in Hx, Hy.
  pose proof (SFcompare_total _ _ Hx Hy) as T.
  unfold lt, le. rewrite FloatAxioms.ltb_spec, FloatAxioms.leb_spec.
  unfold SFltb, SFleb. rewrite (SFcompare_swap (Prim2SF x) (Prim2SF y)).
  destruct (SFcompare (Prim2SF x) (Prim2SF y)) as [[]|]; simpl; congruence.
Qed.

(** Nothing is above NaN. *)
Lemma not_gt_NaN (x : number) : gt x NaN = false.
Proof.
  unfold gt. rewrite FloatAxioms.ltb_spec. reflexivity.
Qed.

Section Validation.

Variable toLocaleString : number -> string.

(** X1. With the dialog open on a remaining balance that is a number, the
    amounts that pass validation are those with
    [0 < amount <= remaining] and those that do not parse (NaN), and no
    others. *)
Theorem validateWithdrawal_accepts_iff employeeId employeeName totalSalary withdrawn v p :
  let remaining := (totalSalary - withdrawn)%float in
  let amount := parseFloat v in
  let page := dialog employeeId employeeName totalSalary withdrawn v p in
  isNaN remaining = false ->
  (fst (validateWithdrawal toLocaleString page) = true
   <-> (isNaN amount = true
        \/ (lt 0%float amount = true /\ le amount remaining = true))).
Proof.
  intros remaining amount page Hr.
  pose proof (ScriptFacts.validateWithdrawal_dialog toLocaleString employeeId
                employeeName totalSalary withdrawn v p) as E.
  cbv zeta in E. fold remaining amount page in E. rewrite E. clear E.
  destruct (isNaN amount) eqn:Ha.
  - apply isNaN_spec in Ha. rewrite Ha, NaN_not_gt, NaN_not_le. simpl. tauto.
  - destruct (gt amount remaining) eqn:G; simpl.
    + split; [discriminate|]. intros [H|[_ H]]; [discriminate|].
      apply le_not_gt in H. congruence.
    + destruct (le amount 0%float) eqn:L; simpl.
      * split; [discriminate|]. intros [H|[H _]]; [discriminate|].
        apply lt_not_ge in H. congruence.
      * split; [|reflexivity]. intros _. right. split.
        -- apply not_le_gt; [assumption | reflexivity | assumption].
        -- apply not_gt_le; assumption.
Qed.

(** X2. Without a limit to compare with (the maximum of the amount
    field does not parse: the dialog was never opened, or the remaining
    balance is NaN), only the test against zero is left: every
    amount above zero passes, however large. *)
Theorem validateWithdrawal_no_limit (p : Page) :
  isNaN (parseFloat (withdrawal_amount_max p)) = true ->
  validateWithdrawal toLocaleString p
  = if le (parseFloat (withdrawal_amount_value p)) 0%float
    then (false, alert invalid_message p)
    else (true, p).
Proof.
  intros H. apply isNaN_spec in H. unfold validateWithdrawal.
  now rewrite H, not_gt_NaN.
Qed.

End Validation.

Lemma validateWithdrawal_accepts_iff_witness :
  fst (validateWithdrawal (toLocaleString_en_IN 3)
         (dialog (VNumber 7%float) (VString "Asha") 30000%float 10000%float "20000.5" blank))
    = true
  <-> (isNaN (parseFloat "20000.5") = true
       \/ (lt 0%float (parseFloat "20000.5") = true
           /\ le (parseFloat "20000.5") (30000 - 10000)%float = true)).
Proof.
  apply (validateWithdrawal_accepts_iff (toLocaleString_en_IN 3)
           (VNumber 7%float) (VString "Asha") 30000%float 10000%float "20000.5" blank).
  vm_compute. reflexivity.
Defined.

Lemma validateWithdrawal_no_limit_witness :
  validateWithdrawal (toLocaleString_en_IN 3)
    (dialog (VNumber 7%float) (VString "Asha") NaN 10000%float "1e300" blank)
  = (true, dialog (VNumber 7%float) (VString "Asha") NaN 10000%float "1e300" blank).
Proof.
  apply (validateWithdrawal_no_limit (toLocaleString_en_IN 3)
           (dialog (VNumber 7%float) (VString "Asha") NaN 10000%float "1e300" blank)).
  vm_compute. reflexivity.
Defined.

(** X3. The whole amounts of the salary box are the amounts rounded to
    the nearest integer, halves away from zero: what [formatNumber]
    prints for a finite [x] other than zero and below [2^53] in
    magnitude (a significand [m] of at most 53 bits in units of [2^e],
    [e <= 0]) is, commas apart, the sign of [x] and the decimal digits of
    the integer [n] with [n - 1/2 <= |x| < n + 1/2]; [n] is [|x|] when
    [x] is an integer. *)
Theorem formatNumber_nearest (x : number) (s : bool) (m : positive) (e : Z) :
  Prim2SF x = S754_finite s m e ->
  e <= 0 ->
  exists n,
    0 <= n
    /\ remove_commas (formatNumber x) = (if s then "-" else "") ++ decimal n
    /\ (e = 0 -> n = Z.pos m)
    /\ (e < 0 -> - 2 ^ (- e) <= 2 * (Z.pos m - n * 2 ^ (- e)) < 2 ^ (- e)).
Proof.
  intros E He.
  destruct (DisplayFacts.scaled_whole m e He) as (H0 & Hz & Hn).
  exists (scaled (Z.pos m) e 0). split; [exact H0|].
  split; [|split; [exact Hz | exact Hn]].
  rewrite (DisplayFacts.formatNumber_finite x s m e E).
  rewrite CurrencyFacts.remove_commas_app. f_equal; [now destruct s|].
  apply CurrencyFacts.remove_commas_group, DisplayFacts.decimal_no_comma.
Qed.

Lemma formatNumber_nearest_witness :
  exists n,
    0 <= n
    /\ remove_commas (formatNumber 1234.5%float) = "" ++ decimal n
    /\ (-42 = 0 -> n = Z.pos 5429388417957888)
    /\ (-42 < 0 -> - 2 ^ (- -42)
                   <= 2 * (Z.pos 5429388417957888 - n * 2 ^ (- -42)) < 2 ^ (- -42)).
Proof.
  apply (formatNumber_nearest 1234.5%float false 5429388417957888 (-42)).
  - vm_compute. reflexivity.
  - lia.
Defined.

End DialogFacts.

(** ** What the currency field keeps of an amount *)

Module AmountFacts.

Lemma fixed_length (w : nat) (n : Z) (rest : string) :
  String.length (fixed w n rest) = (w + String.length rest)%nat.
Proof.
  revert n rest. induction w as [|w IH]; intros n rest; simpl; [reflexivity|].
  rewrite IH. simpl. lia.
Qed.

Lemma fraction_digits_app (a b : string) :
  forallb (fun c => negb (Ascii.eqb c ".")) (list_ascii_of_string a) = true ->
  fraction_digits (a ++ b) = fraction_digits b.
Proof.
  induction a as [|c a IH]; [reflexivity|].
  change (String c a ++ b) with (String c (a ++ b)). simpl.
  intros H. apply andb_prop in H as [Hc H].
  destruct (Ascii.eqb c "."); [discriminate|]. now apply IH.
Qed.

(** The fraction of a value rounded to thousandths has one to three
    digits, or there is none. *)
Lemma fraction_digits_fraction (fr : Z) :
  0 <= fr < 1000 ->
  match fraction_digits (fraction 3 fr) with
  | None => True
  | Some k => (1 <= k <= 3)%nat
  end.
Proof.
  intros H. unfold fraction. destruct (Z.eqb_spec fr 0) as [E|E]; [exact I|].
  pose proof (CurrencyFacts.strip_zeros_spec 3 fr 0 ltac:(lia)) as S.
  destruct (strip_zeros 3 fr 0) as [d z]. destruct S as (Hd & Hz & Ed).
  rewrite Z.sub_0_r in Ed.
  change ("." ++ fixed (3 - Z.to_nat z) d "")
    with (String "."%char (fixed (3 - Z.to_nat z) d "")).
  cbn [fraction_digits]. change (Ascii.eqb "." ".") with true. cbv iota.
  rewrite fixed_length. simpl.
  assert (z = 0 \/ z = 1 \/ z = 2 \/ z = 3) as Cz by lia.
  destruct Cz as [-> | [-> | [-> | ->]]]; simpl in *; lia.
Qed.

Lemma toLocaleString_fraction_digits (x : number) :
  match fraction_digits (toLocaleString_en_IN 3 x) with
  | None => True
  | Some k => (1 <= k <= 3)%nat
  end.
Proof.
  unfold toLocaleString_en_IN.
  destruct (Prim2SF x) as [s|s| |s m e];
    [destruct s; exact I | destruct s; exact I | exact I |].
  change (10 ^ Z.of_nat 3) with 1000.
  set (r := scaled (Z.pos m) e 3).
  assert (forallb (fun c => negb (Ascii.eqb c "."))
            (list_ascii_of_string (group (decimal (r / 1000)))) = true) as G.
  { apply ScriptFacts.digit_or_comma_not_point, ScriptFacts.group_chars.
    unfold decimal. apply ScriptFacts.fixed_chars. reflexivity. }
  rewrite fraction_digits_app by (now destruct s).
  rewrite fraction_digits_app by exact G.
  apply fraction_digits_fraction, Z.mod_pos_bound. lia.
Qed.

(** X4. A field that [formatCurrency] rewrites shows at most three
    fraction digits: what is typed beyond the thousandths is rounded
    away. *)
Theorem formatCurrency_fraction_digits (v : string) :
  isNaN (ToNumber (remove_commas v)) = false ->
  remove_commas v <> "" ->
  formatCurrency v = toLocaleString_en_IN 3 (parseFloat (remove_commas v))
  /\ match fraction_digits (formatCurrency v) with
     | None => True
     | Some k => (1 <= k <= 3)%nat
     end.
Proof.
  intros Hn He.
  assert (formatCurrency v = toLocaleString_en_IN 3 (parseFloat (remove_commas v))) as E.
  { unfold formatCurrency. rewrite Hn. apply String.eqb_neq in He. now rewrite He. }
  split; [exact E|]. rewrite E. apply toLocaleString_fraction_digits.
Qed.

Lemma formatCurrency_fraction_digits_witness :
  formatCurrency "1,234.56789" = toLocaleString_en_IN 3 (parseFloat (remove_commas "1,234.56789"))
  /\ match fraction_digits (formatCurrency "1,234.56789") with
     | None => True
     | Some k => (1 <= k <= 3)%nat
     end.
Proof.
  apply (formatCurrency_fraction_digits "1,234.56789").
  - vm_compute. reflexivity.
  - discriminate.
Defined.

(** X5. An amount below [2^43] in thousandths keeps its digits: when the
    field holds, commas apart, the decimal text of [r / 1000] (integer
    part without leading zeros, up to three fraction digits without
    trailing zeros), [formatCurrency] groups the integer part the en-IN
    way and changes nothing else. *)
Theorem formatCurrency_keeps_thousandths (r : Z) (v : string) :
  0 <= r < 1000 * 2 ^ 43 ->
  remove_commas v = decimal (r / 1000) ++ fraction 3 (r mod 1000) ->
  formatCurrency v = group (decimal (r / 1000)) ++ fraction 3 (r mod 1000)
  /\ remove_commas (formatCurrency v) = remove_commas v.
Proof.
  intros Hr Hv.
  set (t := decimal (r / 1000) ++ fraction 3 (r mod 1000)) in *.
  destruct (decimal_head (r / 1000)) as (d0 & r0 & Hd0 & Eh).
  assert (t = String (digit_char d0) (r0 ++ fraction 3 (r mod 1000))) as Et
    by (unfold t; now rewrite Eh).
  assert (forallb digit_or_point (list_ascii_of_string t) = true) as Hall.
  { unfold t. rewrite ScriptFacts.list_ascii_of_string_app, forallb_app,
      CurrencyFacts.fraction_chars, andb_true_r.
    eapply CurrencyFacts.forallb_impl; [|apply CurrencyFacts.decimal_digits].
    intros a Ha. unfold digit_or_point. now rewrite Ha. }
  pose proof (CurrencyFacts.literal_thousandths r ltac:(lia)) as Hl. fold t in Hl.
  set (y := if r =? 0 then zero else of_rational r 1000) in *.
  rewrite Et in Hall, Hl.
  destruct (CurrencyFacts.plain_numbers y (digit_char d0) _
              (CurrencyFacts.digit_char_is_digit d0 Hd0) Hall Hl)
    as (Tp & _ & Pp & _).
  rewrite <- Et in Tp, Pp.
  assert (Prim2SF y = S754_zero false /\ r = 0
          \/ exists m' e', Prim2SF y = S754_finite false m' e'
                           /\ scaled (Z.pos m') e' 3 = r) as Hy.
  { unfold y. destruct (Z.eqb_spec r 0) as [R0|R0];
      [left; split; [reflexivity | exact R0]|].
    right. apply of_rational_thousandths_far. lia. }
  assert (formatCurrency v = group (decimal (r / 1000)) ++ fraction 3 (r mod 1000)) as F.
  { unfold formatCurrency. rewrite Hv, Tp, Pp.
    assert (String.eqb t "" = false) as -> by (now rewrite Et).
    assert (isNaN y = false) as ->.
    { apply CurrencyFacts.not_NaN.
      destruct Hy as [[-> _]|(m' & e' & -> & _)]; discriminate. }
    cbn [negb andb]. unfold toLocaleString_en_IN.
    destruct Hy as [[-> R0]|(m' & e' & -> & Hs)].
    - rewrite R0. reflexivity.
    - change (10 ^ Z.of_nat 3) with 1000. now rewrite Hs. }
  split; [exact F|]. rewrite F, Hv, CurrencyFacts.remove_commas_app. unfold t. f_equal.
  - apply CurrencyFacts.remove_commas_group.
    eapply CurrencyFacts.forallb_impl; [|apply CurrencyFacts.decimal_digits].
    apply CurrencyFacts.is_digit_no_comma.
  - apply CurrencyFacts.remove_commas_id.
    eapply CurrencyFacts.forallb_impl; [|apply CurrencyFacts.fraction_chars].
    apply CurrencyFacts.digit_or_point_no_comma.
Qed.

Lemma formatCurrency_keeps_thousandths_witness :
  formatCurrency "1234,567.25" = "12,34,567.25"
  /\ remove_commas (formatCurrency "1234,567.25") = remove_commas "1234,567.25".
Proof.
  apply (formatCurrency_keeps_thousandths 1234567250 "1234,567.25").
  - vm_compute. split; [discriminate | reflexivity].
  - vm_compute. reflexivity.
Defined.

End AmountFacts.

(** ** The password strength indicator *)

Module PasswordFacts.

Import Password.

Lemma classes_cover (c : ascii) :
  lower c || upper c || digit c || other c = true.
Proof. unfold other. destruct (lower c || upper c || digit c); reflexivity. Qed.

Lemma classes_disjoint (c : ascii) :
  (lower c = true -> upper c = false /\ digit c = false /\ other c = false)
  /\ (upper c = true -> lower c = false /\ digit c = false /\ other c = false)
  /\ (digit c = true -> lower c = false /\ upper c = false /\ other c = false)
  /\ (other c = true -> lower c = false /\ upper c = false /\ digit c = false).
Proof.
  unfold other, lower, upper, digit, in_range.
  change (N_of_ascii "a") with 97%N. change (N_of_ascii "z") with 122%N.
  change (N_of_ascii "A") with 65%N. change (N_of_ascii "Z") with 90%N.
  change (N_of_ascii "0") with 48%N. change (N_of_ascii "9") with 57%N.
  set (n := N_of_ascii c). clearbody n.
  destruct (N.leb_spec 97 n), (N.leb_spec n 122), (N.leb_spec 65 n),
    (N.leb_spec n 90), (N.leb_spec 48 n), (N.leb_spec n 57); simpl;
    repeat split; intros; try discriminate; try reflexivity; lia.
Qed.

Lemma code_units_range (c : ascii) : 0 <= code_units c <= 2.
Proof.
  unfold code_units.
  destruct (_ <? 128)%N; [lia|]. destruct (_ <? 192)%N; [lia|].
  destruct (_ <? 240)%N; lia.
Qed.

Lemma length_nonneg (s : string) : 0 <= length s.
Proof.
  induction s as [|c s IH]; simpl; [lia|]. pose proof (code_units_range c). lia.
Qed.

Lemma length_app (a b : string) : length (a ++ b) = length a + length b.
Proof.
  induction a as [|c a IH]; [reflexivity|].
  change (String c a ++ b) with (String c (a ++ b)). simpl. rewrite IH. lia.
Qed.

Lemma matches_app (class : ascii -> bool) (a b : string) :
  matches class (a ++ b) = matches class a || matches class b.
Proof.
  induction a as [|c a IH]; [reflexivity|].
  change (String c a ++ b) with (String c (a ++ b)). simpl.
  now rewrite IH, orb_assoc.
Qed.

Lemma matches_existsb (class : ascii -> bool) (s : string) :
  matches class s = existsb class (list_ascii_of_string s).
Proof. induction s as [|c s IH]; simpl; [reflexivity | now rewrite IH]. Qed.

Lemma length_sum (s : string) :
  length s = fold_right Z.add 0 (List.map code_units (list_ascii_of_string s)).
Proof. induction s as [|c s IH]; simpl; [reflexivity | now rewrite IH]. Qed.

(** The score as a sum of the five tests. *)
Lemma score_sum (password : string) :
  score (checkPasswordStrength password)
  = Z.b2z (8 <=? length password) + Z.b2z (matches lower password)
    + Z.b2z (matches upper password) + Z.b2z (matches digit password)
    + Z.b2z (matches other password).
Proof.
  unfold checkPasswordStrength, incr. cbn [score].
  destruct (8 <=? length password), (matches lower password),
    (matches upper password), (matches digit password),
    (matches other password); reflexivity.
Qed.

(** X6. The score is between 0 and 5, and the label and the colour are
    the rows of the two tables at [max(score, 1) - 1]: scores 0 and 1
    both read "Very Weak" in "#ef4444", 2 reads "Weak", 3 "Fair", 4 "Good"
    and 5 "Strong". *)
Theorem checkPasswordStrength_rating (password : string) :
  let r := checkPasswordStrength password in
  0 <= score r <= 5
  /\ nth_error strengthText (Z.to_nat (Z.max (score r) 1 - 1)) = Some (text r)
  /\ nth_error strengthColor (Z.to_nat (Z.max (score r) 1 - 1)) = Some (color r)
  /\ (text r = "Very Weak" <-> score r <= 1).
Proof.
  unfold checkPasswordStrength, incr.
  destruct (8 <=? length password), (matches lower password),
    (matches upper password), (matches digit password),
    (matches other password); cbn;
    (split; [lia|]); (split; [reflexivity|]); (split; [reflexivity|]);
    (split; [intros H; first [lia | discriminate H] | intros H; first [reflexivity | lia]]).
Qed.

(** Some character of a text that is not empty is in one of the four
    classes. *)
Lemma matches_some (c : ascii) (r : string) :
  matches lower (String c r) || matches upper (String c r)
  || matches digit (String c r) || matches other (String c r) = true.
Proof.
  simpl. pose proof (classes_cover c) as H.
  destruct (lower c), (upper c), (digit c), (other c); simpl in *;
    try reflexivity; try discriminate H;
    rewrite ?orb_true_r; reflexivity.
Qed.

(** X7. Only the empty password scores 0. *)
Theorem checkPasswordStrength_zero (password : string) :
  score (checkPasswordStrength password) = 0 <-> password = "".
Proof.
  rewrite score_sum. split.
  - destruct password as [|c r]; [reflexivity|]. intros H. exfalso.
    pose proof (matches_some c r) as M.
    destruct (8 <=? length (String c r)), (matches lower (String c r)),
      (matches upper (String c r)), (matches digit (String c r)),
      (matches other (String c r)); simpl in *; try discriminate M; lia.
  - intros ->. reflexivity.
Qed.

(** X8. A password is rated "Strong" exactly when it passes all five
    tests: eight code units or more, a lower-case letter, an upper-case
    letter, a digit, and a character that is neither. *)
Theorem checkPasswordStrength_strong (password : string) :
  text (checkPasswordStrength password) = "Strong"
  <-> (8 <= length password
       /\ matches lower password = true /\ matches upper password = true
       /\ matches digit password = true /\ matches other password = true).
Proof.
  unfold checkPasswordStrength, incr. rewrite <- Z.leb_le.
  destruct (8 <=? length password), (matches lower password),
    (matches upper password), (matches digit password),
    (matches other password); cbn; split; intros H;
    first [discriminate H | repeat split; reflexivity
          | destruct H as (H1 & H2 & H3 & H4 & H5); discriminate].
Qed.

Lemma b2z_le (a b : bool) : (a = true -> b = true) -> Z.b2z a <= Z.b2z b.
Proof. destruct a, b; simpl; intros H; try lia; specialize (H eq_refl); discriminate H. Qed.

(** X9. Typing more never lowers the score: a password scores at least
    what any part of it does, wherever the rest is added. *)
Theorem checkPasswordStrength_monotone (before password after : string) :
  score (checkPasswordStrength password)
  <= score (checkPasswordStrength (before ++ password ++ after)).
Proof.
  rewrite !score_sum, !length_app, !matches_app.
  pose proof (length_nonneg before). pose proof (length_nonneg after).
  assert (Z.b2z (8 <=? length password)
          <= Z.b2z (8 <=? length before + (length password + length after))).
  { apply b2z_le. rewrite !Z.leb_le. lia. }
  assert (forall class, Z.b2z (matches class password)
            <= Z.b2z (matches class before || (matches class password || matches class after))) as M.
  { intros class. apply b2z_le. intros ->. now rewrite orb_true_r. }
  pose proof (M lower). pose proof (M upper). pose proof (M digit). pose proof (M other).
  lia.
Qed.

Lemma existsb_perm {A} (f : A -> bool) (l k : list A) :
  Permutation l k -> existsb f l = existsb f k.
Proof.
  induction 1; simpl; try congruence.
  - destruct (f x), (f y); reflexivity.
Qed.

Lemma sum_perm (l k : list Z) :
  Permutation l k -> fold_right Z.add 0 l = fold_right Z.add 0 k.
Proof. induction 1; simpl; lia. Qed.

(** X10. The rating does not depend on the order of the characters. *)
Theorem checkPasswordStrength_order (password shuffled : string) :
  Permutation (list_ascii_of_string password) (list_ascii_of_string shuffled) ->
  checkPasswordStrength shuffled = checkPasswordStrength password.
Proof.
  intros P. unfold checkPasswordStrength.
  rewrite !matches_existsb, !length_sum.
  rewrite (existsb_perm lower _ _ P), (existsb_perm upper _ _ P),
    (existsb_perm digit _ _ P), (existsb_perm other _ _ P).
  rewrite (sum_perm _ _ (Permutation_map code_units P)). reflexivity.
Qed.

Lemma checkPasswordStrength_order_witness :
  checkPasswordStrength "1bA" = checkPasswordStrength "Ab1".
Proof.
  apply (checkPasswordStrength_order "Ab1" "1bA").
  exact (Permutation_rev ["A"%char; "b"%char; "1"%char]).
Defined.

Lemma forall_class (class class' : ascii -> bool) (s : string) :
  (forall c, class c = true -> class' c = false) ->
  forallb class (list_ascii_of_string s) = true -> matches class' s = false.
Proof.
  intros H. induction s as [|c s IH]; simpl; [reflexivity|].
  intros F. apply andb_prop in F as [Fc Fs]. now rewrite (H c Fc), (IH Fs).
Qed.

(** X11. A password made of one kind of character only (lower-case
    letters, upper-case letters, digits, or others) scores at most 2,
    however long: it is never rated better than "Weak". *)
Theorem checkPasswordStrength_one_class (class : ascii -> bool) (password : string) :
  In class [lower; upper; digit; other] ->
  forallb class (list_ascii_of_string password) = true ->
  score (checkPasswordStrength password) <= 2
  /\ (text (checkPasswordStrength password) = "Very Weak"
      \/ text (checkPasswordStrength password) = "Weak").
Proof.
  intros I F.
  assert (score (checkPasswordStrength password) <= 2) as S.
  { rewrite score_sum.
    assert (forall b, Z.b2z b <= 1) as B by (intros []; simpl; lia).
    pose proof (B (8 <=? length password)).
    pose proof (B (matches lower password)). pose proof (B (matches upper password)).
    pose proof (B (matches digit password)). pose proof (B (matches other password)).
    simpl in I. destruct I as [<-|[<-|[<-|[<-|[]]]]].
    - rewrite (forall_class lower upper), (forall_class lower digit),
        (forall_class lower other) by (try exact F; intros c Hc; now apply classes_disjoint in Hc).
      simpl. lia.
    - rewrite (forall_class upper lower), (forall_class upper digit),
        (forall_class upper other) by (try exact F; intros c Hc; now apply classes_disjoint in Hc).
      simpl. lia.
    - rewrite (forall_class digit lower), (forall_class digit upper),
        (forall_class digit other) by (try exact F; intros c Hc; now apply classes_disjoint in Hc).
      simpl. lia.
    - rewrite (forall_class other lower), (forall_class other upper),
        (forall_class other digit) by (try exact F; intros c Hc; now apply classes_disjoint in Hc).
      simpl. lia. }
  split; [exact S|]. revert S. unfold checkPasswordStrength, incr.
  destruct (8 <=? length password), (matches lower password),
    (matches upper password), (matches digit password),
    (matches other password); cbn; intros S; auto; lia.
Qed.

Lemma checkPasswordStrength_one_class_witness :
  score (checkPasswordStrength "314159265358979") <= 2
  /\ (text (checkPasswordStrength "314159265358979") = "Very Weak"
      \/ text (checkPasswordStrength "314159265358979") = "Weak").
Proof.
  apply (checkPasswordStrength_one_class digit "314159265358979").
  - simpl. tauto.
  - reflexivity.
Defined.

End PasswordFacts.

(** ** The modal dialogs *)

Module ModalFacts.

Import Modals.

Lemma contains_remove (token t : string) (e : Element) :
  contains t (remove token e) = negb (String.eqb token t) && contains t e.
Proof.
  unfold contains, remove. cbn [classList].
  induction (classList e) as [|c l IH]; simpl; [now rewrite andb_false_r|].
  destruct (String.eqb_spec token c) as [<-|N]; simpl.
  - rewrite IH. destruct (String.eqb_spec t token) as [->|N'].
    + now rewrite String.eqb_refl.
    + reflexivity.
  - rewrite IH. destruct (String.eqb_spec t c) as [->|N'].
    + apply String.eqb_neq in N. now rewrite N.
    + reflexivity.
Qed.

Lemma contains_add (token t : string) (e : Element) :
  contains t (add token e) = String.eqb t token || contains t e.
Proof.
  unfold add. destruct (contains token e) eqn:C.
  - destruct (String.eqb_spec t token) as [->|N]; [now rewrite C | reflexivity].
  - unfold contains. cbn [classList]. rewrite existsb_app. simpl.
    rewrite orb_false_r. apply orb_comm.
Qed.

Lemma remove_add (token : string) (e : Element) :
  remove token (add token e) = remove token e.
Proof.
  unfold add. destruct (contains token e); [reflexivity|].
  unfold remove. cbn [id classList]. f_equal.
  rewrite List.filter_app. simpl. rewrite String.eqb_refl. simpl.
  apply app_nil_r.
Qed.

Lemma add_add (token : string) (e : Element) :
  add token (add token e) = add token e.
Proof.
  unfold add at 1. rewrite contains_add, String.eqb_refl. reflexivity.
Qed.

Lemma id_add (token : string) (e : Element) : id (add token e) = id e.
Proof. unfold add. now destruct (contains token e). Qed.

(** Doing [g] to the element that [f] was done to. *)
Lemma on_element_twice (i : string) (f g : Element -> Element) (d d' : Document) :
  (forall e, id (f e) = id e) ->
  on_element i f d = Some d' ->
  on_element i g d' = on_element i (fun e => g (f e)) d.
Proof.
  intros Hf. revert d'. induction d as [|e r IH]; intros d' H; simpl in H; [discriminate|].
  simpl. destruct (String.eqb (id e) i) eqn:E.
  - injection H as <-. simpl. now rewrite Hf, E.
  - destruct (on_element i f r) as [r'|] eqn:R; [|discriminate].
    injection H as <-. simpl. rewrite E. now rewrite (IH r' eq_refl).
Qed.

Lemma on_element_ext (i : string) (f g : Element -> Element) (d : Document) :
  (forall e, f e = g e) -> on_element i f d = on_element i g d.
Proof.
  intros H. induction d as [|e r IH]; simpl; [reflexivity|].
  now rewrite H, IH.
Qed.

Lemma on_element_None (i : string) (f : Element -> Element) (d : Document) :
  on_element i f d = None <-> (forall e, In e d -> id e <> i).
Proof.
  induction d as [|e r IH]; simpl.
  - split; [intros _ e [] | reflexivity].
  - destruct (String.eqb_spec (id e) i) as [E|E].
    + split; [discriminate|]. intros H. elim (H e); auto.
    + destruct (on_element i f r) as [r'|]; simpl.
      * split; [discriminate|]. intros H. destruct IH as [_ IH].
        discriminate IH. intros e' I. apply H. now right.
      * split; [|reflexivity]. intros _ e' [<-|I]; [exact E|].
        destruct IH as [IH _]. now apply IH.
Qed.

(** Only elements with the id change. *)
Lemma on_element_others (i : string) (f : Element -> Element) (d d' : Document)
    (k : nat) (e : Element) :
  on_element i f d = Some d' -> d !! k = Some e -> id e <> i -> d' !! k = Some e.
Proof.
  revert d' k. induction d as [|x r IH]; intros d' k H L N; simpl in H; [discriminate|].
  destruct (String.eqb_spec (id x) i) as [E|E].
  - injection H as <-. destruct k as [|k]; simpl in *; [|exact L].
    injection L as ->. contradiction.
  - destruct (on_element i f r) as [r'|] eqn:R; [|discriminate].
    injection H as <-. destruct k as [|k]; simpl in *; [exact L|].
    now apply (IH r').
Qed.

(** X12. Closing the add dialog after opening it gives the page that
    closing alone gives (the page as it was, when the dialog was closed),
    and opening an open dialog changes nothing. *)
Theorem closeAddModal_openAddModal (d d' : Document) :
  openAddModal d = Some d' ->
  closeAddModal d' = closeAddModal d
  /\ openAddModal d' = Some d'
  /\ (closeAddModal d = Some d -> closeAddModal d' = Some d).
Proof.
  intros H. unfold openAddModal, closeAddModal in *.
  assert (on_element "addEmployeeModal" (remove "active") d'
          = on_element "addEmployeeModal" (remove "active") d) as C.
  { rewrite (on_element_twice _ (add "active") (remove "active") d d')
      by (try exact H; intros e; apply id_add).
    apply on_element_ext. intros e. apply remove_add. }
  repeat split.
  - exact C.
  - rewrite (on_element_twice _ (add "active") (add "active") d d')
      by (try exact H; intros e; apply id_add).
    rewrite <- H. apply on_element_ext. intros e. apply add_add.
  - intros <-. exact C.
Qed.

(** X13. [openAddModal], [closeAddModal] and [closeEditModal] throw
    exactly on a page without the element they look up; on any other
    page they leave every element of another id as it is. *)
Theorem openAddModal_missing (d : Document) :
  (openAddModal d = None <-> (forall e, In e d -> id e <> "addEmployeeModal"))
  /\ (closeAddModal d = None <-> (forall e, In e d -> id e <> "addEmployeeModal"))
  /\ (closeEditModal d = None <-> (forall e, In e d -> id e <> "editEmployeeModal"))
  /\ (forall d' k e,
        openAddModal d = Some d' \/ closeAddModal d = Some d' ->
        d !! k = Some e -> id e <> "addEmployeeModal" -> d' !! k = Some e)
  /\ (forall d' k e,
        closeEditModal d = Some d' ->
        d !! k = Some e -> id e <> "editEmployeeModal" -> d' !! k = Some e).
Proof.
  split; [apply on_element_None|]. split; [apply on_element_None|].
  split; [apply on_element_None|]. split.
  - intros d' k e [H|H]; now apply on_element_others with (1 := H).
  - intros d' k e H. now apply on_element_others with (1 := H).
Qed.

Lemma lookup_for_each_modal (f : nat -> Element -> Element) (d : Document) (k : nat) :
  for_each_modal f d !! k = (fun e => if is_modal e then f k e else e) <$> d !! k.
Proof. unfold for_each_modal. apply list_lookup_imap. Qed.

Lemma for_each_modal_map (g : Element -> Element) (d : Document) :
  for_each_modal (fun _ => g) d = List.map (fun e => if is_modal e then g e else e) d.
Proof.
  unfold for_each_modal.
  change (fun (k : nat) (e : Element) => if is_modal e then g e else e)
    with (fun _ : nat => (fun e => if is_modal e then g e else e)).
  generalize (fun e => if is_modal e then g e else e). intros h.
  induction d as [|e r IH]; [reflexivity|]. simpl. f_equal. exact IH.
Qed.

(** X14. The Escape key closes every modal dialog at once and touches
    nothing else: afterwards no element of class modal has the class
    active, it has its other classes as before, and an element that is
    not of class modal is as it was; any other key changes nothing. *)
Theorem keydown_Escape (d : Document) :
  (forall k e, d !! k = Some e ->
     exists e', keydown "Escape" d !! k = Some e'
       /\ id e' = id e
       /\ (is_modal e = false -> e' = e)
       /\ (is_modal e = true ->
           contains "active" e' = false
           /\ forall t, t <> "active" -> contains t e' = contains t e))
  /\ List.length (keydown "Escape" d) = List.length d
  /\ (forall key, key <> "Escape" -> keydown key d = d).
Proof.
  repeat split.
  - intros k e L. unfold keydown. cbn [String.eqb Ascii.eqb Bool.eqb].
    rewrite lookup_for_each_modal, L. cbn [fmap option_fmap option_map].
    eexists. split; [reflexivity|].
    destruct (is_modal e) eqn:M; repeat split; try discriminate; try reflexivity.
    + apply contains_remove.
    + intros t N. rewrite contains_remove.
      apply not_eq_sym, String.eqb_neq in N. now rewrite N.
  - unfold keydown. cbn [String.eqb Ascii.eqb Bool.eqb].
    rewrite for_each_modal_map. apply List.length_map.
  - intros key N. unfold keydown. apply String.eqb_neq in N. now rewrite N.
Qed.

(** X15. A click on the backdrop of a modal dialog closes that dialog and
    leaves every other element as it is; a click on anything else (an
    element inside the dialog, say) changes nothing. *)
Theorem window_onclick_target (target : nat) (d : Document) :
  (forall k e, d !! k = Some e ->
     window_onclick target d !! k
     = Some (if Nat.eqb target k && is_modal e then remove "active" e else e))
  /\ (forall k e, d !! k = Some e -> k <> target -> window_onclick target d !! k = Some e)
  /\ ((forall e, d !! target = Some e -> is_modal e = false) ->
      window_onclick target d = d).
Proof.
  assert (forall k e, d !! k = Some e ->
            window_onclick target d !! k
            = Some (if Nat.eqb target k && is_modal e then remove "active" e else e)) as G.
  { intros k e L. unfold window_onclick. rewrite lookup_for_each_modal, L.
    cbn [fmap option_fmap option_map]. f_equal.
    destruct (is_modal e), (Nat.eqb target k); reflexivity. }
  split; [exact G | split].
  - intros k e L N. rewrite (G k e L).
    apply not_eq_sym, Nat.eqb_neq in N. now rewrite N.
  - intros H. apply list_eq. intros k.
    destruct (d !! k) as [e|] eqn:L.
    + refine (eq_trans (G k e L) (eq_trans _ (eq_sym L))).
      destruct (Nat.eqb_spec target k) as [->|N]; [|reflexivity].
      now rewrite (H e L).
    + refine (eq_trans (lookup_for_each_modal _ d k) (eq_trans _ (eq_sym L))).
      now rewrite L.
Qed.

(** X16. Escape closes the add dialog that [openAddModal] opened: on a
    page whose add dialog is of class modal, pressing Escape after
    opening gives the page that pressing Escape alone gives. *)
Theorem keydown_Escape_openAddModal (d d' : Document) :
  (forall e, In e d -> id e = "addEmployeeModal" -> is_modal e = true) ->
  openAddModal d = Some d' ->
  keydown "Escape" d' = keydown "Escape" d.
Proof.
  unfold keydown. cbn [String.eqb Ascii.eqb Bool.eqb].
  rewrite !for_each_modal_map. unfold openAddModal.
  revert d'. induction d as [|e r IH]; intros d' M H; simpl in H; [discriminate|].
  destruct (String.eqb_spec (id e) "addEmployeeModal") as [E|E].
  - injection H as <-. simpl. f_equal.
    assert (is_modal (add "active" e) = is_modal e) as ->.
    { unfold is_modal. rewrite contains_add. reflexivity. }
    rewrite (M e (or_introl eq_refl) E). apply remove_add.
  - destruct (on_element "addEmployeeModal" (add "active") r) as [r'|] eqn:R;
      [|discriminate].
    injection H as <-. simpl. f_equal. apply IH; [|reflexivity].
    intros x I. apply M. now right.
Qed.

(** The element that [getElementById] finds, by its position. *)
Lemma on_element_first (i : string) (f : Element -> Element) (d : Document)
    (k : nat) (e : Element) :
  (forall j x, (j < k)%nat -> d !! j = Some x -> id x <> i) ->
  d !! k = Some e -> id e = i ->
  on_element i f d = Some (<[k := f e]> d).
Proof.
  revert k. induction d as [|x r IH]; intros k B L E; [discriminate L|].
  simpl. destruct k as [|k].
  - injection L as ->. apply String.eqb_eq in E. now rewrite E.
  - assert (id x <> i) as N by (apply (B 0%nat); [lia | reflexivity]).
    apply String.eqb_neq in N. rewrite N.
    rewrite (IH k); [reflexivity | | exact L | exact E].
    intros j y Hj Hy. apply (B (S j)); [lia | exact Hy].
Qed.

(** X17. A click on the backdrop of the add dialog does what
    [closeAddModal] does: when the element clicked is the one of id
    addEmployeeModal and of class modal, both give the same page. *)
Theorem window_onclick_closeAddModal (d : Document) (target : nat) (e : Element) :
  (forall j x, (j < target)%nat -> d !! j = Some x -> id x <> "addEmployeeModal") ->
  d !! target = Some e ->
  id e = "addEmployeeModal" ->
  is_modal e = true ->
  closeAddModal d = Some (window_onclick target d).
Proof.
  intros B L E M. unfold closeAddModal.
  rewrite (on_element_first _ _ d target e B L E). f_equal.
  unfold Document in *. apply list_eq. intros k.
  assert (window_onclick target d !! k
          = (fun x => if is_modal x
                      then (if Nat.eqb target k then remove "active" x else x)
                      else x) <$> d !! k) as W
    by apply lookup_for_each_modal.
  refine (eq_trans _ (eq_sym W)). clear W.
  destruct (Nat.eq_dec target k) as [<-|N].
  - rewrite list_lookup_insert_eq by (now apply lookup_lt_Some with e).
    rewrite L. cbn [fmap option_fmap option_map]. now rewrite M, Nat.eqb_refl.
  - rewrite list_lookup_insert_ne by exact N.
    destruct (d !! k) as [x|]; [|reflexivity].
    cbn [fmap option_fmap option_map]. apply Nat.eqb_neq in N. rewrite N.
    now destruct (is_modal x).
Qed.


Lemma closeAddModal_openAddModal_witness :
  closeAddModal (add "active" {| id := "addEmployeeModal"; classList := ["modal"] |}
                   :: List.tl page) = closeAddModal page
  /\ openAddModal (add "active" {| id := "addEmployeeModal"; classList := ["modal"] |}
                     :: List.tl page)
     = Some (add "active" {| id := "addEmployeeModal"; classList := ["modal"] |}
               :: List.tl page)
  /\ (closeAddModal page = Some page ->
      closeAddModal (add "active" {| id := "addEmployeeModal"; classList := ["modal"] |}
                       :: List.tl page) = Some page).
Proof. apply (closeAddModal_openAddModal page). reflexivity. Defined.

Lemma keydown_Escape_openAddModal_witness :
  keydown "Escape"
    (add "active" {| id := "addEmployeeModal"; classList := ["modal"] |} :: List.tl page)
  = keydown "Escape" page.
Proof.
  apply (keydown_Escape_openAddModal page).
  - intros e [<-|[<-|[<-|[]]]]; intros H; first [reflexivity | discriminate H].
  - reflexivity.
Defined.

Lemma window_onclick_closeAddModal_witness :
  closeAddModal (add "active" {| id := "addEmployeeModal"; classList := ["modal"] |}
                   :: List.tl page)
  = Some (window_onclick 0
            (add "active" {| id := "addEmployeeModal"; classList := ["modal"] |}
               :: List.tl page)).
Proof.
  apply (window_onclick_closeAddModal
           (add "active" {| id := "addEmployeeModal"; classList := ["modal"] |}
              :: List.tl page)
           0%nat (add "active" {| id := "addEmployeeModal"; classList := ["modal"] |})).
  - intros j x Hj. lia.
  - reflexivity.
  - reflexivity.
  - reflexivity.
Defined.

End ModalFacts.

(** ** The debounced search *)

Module SearchFacts.

Import Search.

Lemma settled_initial : settled initial.
Proof. split; [now left | discriminate]. Qed.

Lemma debounceSearch_pending (st : State) :
  settled st ->
  timers (debounceSearch st) = [next_id st]
  /\ searchTimeout (debounceSearch st) = Some (next_id st).
Proof.
  intros [[E|(id & Es & Et)] _]; unfold debounceSearch; cbn [timers searchTimeout];
    split; try reflexivity.
  - rewrite E. now destruct (searchTimeout st).
  - rewrite Es, Et. simpl. now rewrite Nat.eqb_refl.
Qed.

Lemma settled_step (st : State) (ev : event) : settled st -> settled (step st ev).
Proof.
  intros HS. destruct ev as [|id]; simpl.
  - destruct (debounceSearch_pending st HS) as [Et Es]. split.
    + right. eauto.
    + intros id. rewrite Es. intros [= <-]. simpl. lia.
  - destruct HS as [[E|(i & Es & Et)] F]; unfold run_timer.
    + rewrite E. simpl. split; [now left | exact F].
    + rewrite Et. simpl. destruct (Nat.eqb_spec id i) as [->|N].
      * simpl. split; [|exact F]. left. now rewrite Nat.eqb_refl.
      * simpl. split; [|exact F]. right. eauto.
Qed.

Lemma settled_run (evs : list event) (st : State) : settled st -> settled (run evs st).
Proof.
  revert st. induction evs as [|ev evs IH]; intros st HS; [exact HS|].
  apply IH, settled_step, HS.
Qed.

(** X18. Whatever the input events and the timers the host runs, at most
    one timer of the search is pending, the one set by the latest call of
    [debounceSearch]: every earlier one was cleared or has run. *)
Theorem debounceSearch_one_pending (evs : list event) :
  let st := run evs initial in
  timers st = []
  \/ exists id, searchTimeout st = Some id /\ timers st = [id].
Proof. apply (settled_run evs initial settled_initial). Qed.

Lemma submitted_burst (n : nat) (st : State) :
  submitted (run (burst n) st) = submitted st.
Proof.
  revert st. induction n as [|n IH]; intros st; [reflexivity|].
  unfold burst, run in *. simpl. now rewrite IH.
Qed.

(** X19. A burst of input events submits the form once: after any
    history, [n + 1] calls of [debounceSearch] in a row leave one timer
    pending and submit nothing; when the host runs that timer the form
    is submitted once and no timer is left, so that the host has nothing
    more to run. *)
Theorem debounceSearch_burst (evs : list event) (n : nat) :
  let before := run evs initial in
  let st := run (burst (S n)) before in
  submitted st = submitted before
  /\ exists id,
       timers st = [id]
       /\ submitted (run_timer id st) = S (submitted before)
       /\ timers (run_timer id st) = []
       /\ forall id', run_timer id' (run_timer id st) = run_timer id st.
Proof.
  intros before st.
  assert (submitted st = submitted before) as Hs by apply submitted_burst.
  split; [exact Hs|].
  assert (settled (run (burst n) before)) as HS
    by (apply settled_run, settled_run, settled_initial).
  assert (st = debounceSearch (run (burst n) before)) as E.
  { unfold st, burst. replace (S n) with (n + 1)%nat by lia.
    rewrite repeat_app. unfold run. now rewrite fold_left_app. }
  destruct (debounceSearch_pending _ HS) as [Et _]. rewrite <- E in Et.
  exists (next_id (run (burst n) before)).
  split; [exact Et|].
  unfold run_timer at 1 2 3. rewrite Et. simpl. rewrite Nat.eqb_refl. simpl.
  repeat split; [now rewrite Hs|].
  intros id'. unfold run_timer at 1. rewrite Et. simpl. rewrite Nat.eqb_refl.
  reflexivity.
Qed.

End SearchFacts.

(** ** Amounts typed with commas *)

Module CommaFacts.

(** A run of digits followed by a comma reads as the digits; the comma
    and what follows are left over. *)
Lemma literal_comma (n : Z) (rest : string) :
  0 <= n ->
  literal (decimal n ++ "," ++ rest) = Some (of_decimal n 0, "," ++ rest).
Proof.
  intros H. unfold literal.
  destruct (decimal_head n) as (d & r & Hd & E).
  rewrite E at 1.
  change (String (digit_char d) r ++ "," ++ rest)
    with (String (digit_char d) (r ++ "," ++ rest)).
  rewrite prefix_Infinity_digit by assumption.
  unfold decimal. rewrite fixed_app, digits_fixed.
  change ("" ++ "," ++ rest) with (String ","%char rest).
  cbn [digits exponent_part]. change (is_digit ",") with false. cbv iota.
  rewrite Z.mod_small by (split; [assumption | apply ndigits_bound; assumption]).
  destruct (ndigits_succ n) as [w ->].
  replace (0 + Z.of_nat (S w) =? 0) with false by (symmetry; apply Z.eqb_neq; lia).
  change (Ascii.eqb "," "e" || Ascii.eqb "," "E") with false. cbv iota.
  do 3 f_equal; lia.
Qed.

Lemma parseFloat_comma (n : Z) (rest : string) :
  0 <= n -> parseFloat (decimal n ++ "," ++ rest) = parseFloat (decimal n).
Proof.
  intros H.
  rewrite (parseFloat_unsigned (decimal n) (of_decimal n 0))
    by (now apply unsigned_decimal_decimal).
  apply parseFloat_unsigned. unfold unsigned_decimal.
  now rewrite literal_comma.
Qed.

Section Validation.

Variable toLocaleString : number -> string.

(** X20. An amount typed with a comma is checked as the digits before
    the comma: [validateWithdrawal] reads the field with [parseFloat],
    which stops at the first comma, so that the digits [n] followed by a
    comma and any text pass or fail, with the same alert, as [n] alone. *)
Theorem validateWithdrawal_stops_at_comma employeeId employeeName totalSalary withdrawn
    (n : Z) (rest : string) p :
  let typed := dialog employeeId employeeName totalSalary withdrawn
                 (decimal n ++ "," ++ rest) p in
  let short := dialog employeeId employeeName totalSalary withdrawn (decimal n) p in
  0 <= n ->
  parseFloat (decimal n ++ "," ++ rest) = of_decimal n 0
  /\ fst (validateWithdrawal toLocaleString typed)
     = fst (validateWithdrawal toLocaleString short)
  /\ alerts (snd (validateWithdrawal toLocaleString typed))
     = alerts (snd (validateWithdrawal toLocaleString short)).
Proof.
  intros typed short H.
  pose proof (ScriptFacts.validateWithdrawal_dialog toLocaleString employeeId
                employeeName totalSalary withdrawn (decimal n ++ "," ++ rest) p) as E1.
  pose proof (ScriptFacts.validateWithdrawal_dialog toLocaleString employeeId
                employeeName totalSalary withdrawn (decimal n) p) as E2.
  cbv zeta in E1, E2. fold typed in E1. fold short in E2.
  rewrite E1, E2, parseFloat_comma by assumption. clear E1 E2.
  split.
  - apply parseFloat_unsigned. now apply unsigned_decimal_decimal.
  - destruct (gt (parseFloat (decimal n)) (totalSalary - withdrawn)%float);
      [split; reflexivity|].
    destruct (le (parseFloat (decimal n)) 0%float); split; reflexivity.
Qed.

End Validation.

Lemma validateWithdrawal_stops_at_comma_witness :
  parseFloat "25,000" = 25%float
  /\ fst (validateWithdrawal (toLocaleString_en_IN 3)
            (dialog (VNumber 7%float) (VString "Asha") 30000%float 10000%float
               "25,000" blank))
     = true
  /\ alerts (snd (validateWithdrawal (toLocaleString_en_IN 3)
                    (dialog (VNumber 7%float) (VString "Asha") 30000%float 10000%float
                       "25,000" blank)))
     = [].
Proof.
  apply (validateWithdrawal_stops_at_comma (toLocaleString_en_IN 3)
           (VNumber 7%float) (VString "Asha") 30000%float 10000%float 25 "000" blank).
  lia.
Defined.

End CommaFacts.
